(** * xml-subtitle-converter: the subtitle alignment engine of [src/index.js]

    A shallow embedding of the converter's cue extraction, time-code
    conversion and of its two combination modes (paired and timeline),
    followed by the properties of the alignment engine.

    Modelling conventions.
    - JavaScript strings are [string]; the markup the regular expressions
      look for is ASCII, so matching on bytes and on UTF-16 code units agree.
    - JavaScript numbers are [number]: exact rationals extended with [NaN]
      and the two infinities.  IEEE rounding, the sign of zero and the
      exponent notation of very large numbers are not modelled: the model
      and the code agree where every value is represented exactly, as the
      safe integers (those below [2^53]) and their differences are.  The
      properties that hold of exact tick counts only are stated for tick
      counts in that range, and the concrete evaluations below only use
      values that doubles represent exactly.
    - [Array.prototype.sort] is stable (ECMAScript 2019, Node 11 and later);
      it is modelled by a stable insertion sort, which for a consistent
      comparator returns the same array as any other stable sort.
    - [fs.readFile] and [fs.writeFile] act on a store from paths to file
      contents, in which every path can be written: the directory of an
      output file is taken to exist, as the one the module creates when it
      is loaded does.  Console output is not modelled. *)

From Stdlib Require Import ZArith QArith Qround Qabs List String Ascii Bool Lia.
From Stdlib Require Import DecimalString Permutation Sorted.
From Stdlib Require Qcanon.
Import ListNotations.

Local Open Scope string_scope.
Local Open Scope Z_scope.

(** ** Strings *)

Module Str.

(** The line feed and the double quote, which string literals cannot hold
    directly. *)
Definition nl : string := String "010"%char EmptyString.
Definition dq : string := String "034"%char EmptyString.

(** [quoted s] is [s] with every apostrophe turned into a double quote, so
    that markup can be written legibly. *)
Fixpoint quoted (s : string) : string :=
  match s with
  | EmptyString => EmptyString
  | String c s' =>
      String (if Ascii.eqb c "'"%char then "034"%char else c) (quoted s')
  end.

(** [strip_prefix p s] is the rest of [s] after the literal [p], when [s]
    starts with [p]. *)
Fixpoint strip_prefix (p s : string) : option string :=
  match p, s with
  | EmptyString, _ => Some s
  | String a p', String b s' =>
      if Ascii.eqb a b then strip_prefix p' s' else None
  | String _ _, EmptyString => None
  end.

(** [String.prototype.replace(pat, rep)] with a string pattern: only the
    first occurrence is replaced. *)
Fixpoint replace_first (pat rep s : string) : string :=
  match strip_prefix pat s with
  | Some rest => rep ++ rest
  | None =>
      match s with
      | EmptyString => EmptyString
      | String c s' => String c (replace_first pat rep s')
      end
  end.

(** [s.replace(/pat/g, rep)] for a literal, non-empty [pat]: every
    occurrence, left to right, without overlap.  [skip] counts the
    characters of a match that are still to be dropped. *)
Fixpoint replace_all_from (pat rep : string) (skip : nat) (s : string)
  : string :=
  match s with
  | EmptyString => EmptyString
  | String c s' =>
      match skip with
      | S k => replace_all_from pat rep k s'
      | O =>
          match strip_prefix pat s with
          | Some _ =>
              rep ++ replace_all_from pat rep (String.length pat - 1) s'
          | None => String c (replace_all_from pat rep 0 s')
          end
      end
  end.

Definition replace_all (pat rep s : string) : string :=
  replace_all_from pat rep 0 s.

(** [String.prototype.padStart(n, '0')]. *)
Fixpoint zeros (n : nat) : string :=
  match n with
  | O => EmptyString
  | S k => String "0"%char (zeros k)
  end.

Definition padStart (n : nat) (s : string) : string :=
  zeros (n - String.length s) ++ s.

(** Decimal notation of an integer, as [Number.prototype.toString] prints
    an integral value. *)
Definition of_Z (z : Z) : string := NilEmpty.string_of_int (Z.to_int z).

Definition of_nat (n : nat) : string := of_Z (Z.of_nat n).

End Str.

(** ** Numbers *)

Module Num.

Inductive number : Type :=
| NaN
| Infinity (negative : bool)
| Finite (q : Q).

Definition of_Z (z : Z) : number := Finite (inject_Z z).

Definition is_neg (q : Q) : bool :=
  match Qcompare q 0 with Lt => true | _ => false end.

Definition is_zero (q : Q) : bool :=
  match Qcompare q 0 with Eq => true | _ => false end.

(** [a - b] *)
Definition sub (a b : number) : number :=
  match a, b with
  | NaN, _ | _, NaN => NaN
  | Infinity s, Infinity t => if Bool.eqb s t then NaN else Infinity s
  | Infinity s, Finite _ => Infinity s
  | Finite _, Infinity t => Infinity (negb t)
  | Finite x, Finite y => Finite (Qred (x - y))
  end.

(** [a * b] *)
Definition mul (a b : number) : number :=
  match a, b with
  | NaN, _ | _, NaN => NaN
  | Infinity s, Infinity t => Infinity (xorb s t)
  | Infinity s, Finite y =>
      if is_zero y then NaN else Infinity (xorb s (is_neg y))
  | Finite x, Infinity t =>
      if is_zero x then NaN else Infinity (xorb (is_neg x) t)
  | Finite x, Finite y => Finite (Qred (x * y))
  end.

(** [a / b]; a zero divisor is the positive zero. *)
Definition div (a b : number) : number :=
  match a, b with
  | NaN, _ | _, NaN => NaN
  | Infinity _, Infinity _ => NaN
  | Infinity s, Finite y => Infinity (xorb s (is_neg y))
  | Finite _, Infinity _ => Finite 0
  | Finite x, Finite y =>
      if is_zero y then
        (if is_zero x then NaN else Infinity (is_neg x))
      else Finite (Qred (x / y))
  end.

(** Rounding toward zero, to an integer. *)
Definition trunc (q : Q) : Z :=
  if is_neg q then Qceiling q else Qfloor q.

(** [a % b]: the remainder has the sign of the dividend. *)
Definition rem (a b : number) : number :=
  match a, b with
  | NaN, _ | _, NaN => NaN
  | Infinity _, _ => NaN
  | Finite x, Infinity _ => Finite x
  | Finite x, Finite y =>
      if is_zero y then NaN
      else Finite (Qred (x - y * inject_Z (trunc (x / y))))
  end.

(** [Math.floor] *)
Definition floor (a : number) : number :=
  match a with
  | Finite x => Finite (inject_Z (Qfloor x))
  | _ => a
  end.

(** [Math.abs] *)
Definition abs (a : number) : number :=
  match a with
  | NaN => NaN
  | Infinity _ => Infinity false
  | Finite x => Finite (Qabs x)
  end.

(** [a < b]; false as soon as one side is [NaN]. *)
Definition ltb (a b : number) : bool :=
  match a, b with
  | NaN, _ | _, NaN => false
  | Infinity s, Infinity t => s && negb t
  | Infinity s, Finite _ => s
  | Finite _, Infinity t => negb t
  | Finite x, Finite y =>
      match Qcompare x y with Lt => true | _ => false end
  end.

(** [Number.prototype.toString] on the values [Math.floor] returns. *)
Definition toString (a : number) : string :=
  match a with
  | NaN => "NaN"
  | Infinity false => "Infinity"
  | Infinity true => "-Infinity"
  | Finite x => Str.of_Z (Qfloor x)
  end.

(** [Number.MAX_SAFE_INTEGER] *)
Definition MAX_SAFE_INTEGER : number := of_Z (2 ^ 53 - 1).

End Num.

Import Num.

(** *** [parseInt] *)

(** The ASCII white space [parseInt] skips. *)
Definition is_space (c : ascii) : bool :=
  match nat_of_ascii c with
  | 9%nat | 10%nat | 11%nat | 12%nat | 13%nat | 32%nat => true
  | _ => false
  end.

Fixpoint trimStart (s : string) : string :=
  match s with
  | String c s' => if is_space c then trimStart s' else s
  | EmptyString => EmptyString
  end.

(** The value of a digit or letter, when it is a digit of the radix. *)
Definition digit_of (radix : Z) (c : ascii) : option Z :=
  let n := Z.of_nat (nat_of_ascii c) in
  let v :=
    if (48 <=? n) && (n <=? 57) then n - 48
    else if (97 <=? n) && (n <=? 122) then n - 87
    else if (65 <=? n) && (n <=? 90) then n - 55
    else radix in
  if v <? radix then Some v else None.

(** The number the longest prefix of digits denotes; [None] without a
    digit. *)
Fixpoint digits (radix : Z) (acc : option Z) (s : string) : option Z :=
  match s with
  | EmptyString => acc
  | String c s' =>
      match digit_of radix c with
      | Some d =>
          digits radix
            (Some (radix * match acc with Some a => a | None => 0 end + d)) s'
      | None => acc
      end
  end.

(** [parseInt(string)] without a radix: leading white space, an optional
    sign, an optional [0x] prefix, then the longest run of digits; [NaN]
    when there is no digit. *)
Definition parseInt (s : string) : number :=
  let s := trimStart s in
  let (negative, s) :=
    match s with
    | String "-" s' => (true, s')
    | String "+" s' => (false, s')
    | _ => (false, s)
    end in
  let (radix, s) :=
    match s with
    | String "0" (String "x" s') | String "0" (String "X" s') => (16, s')
    | _ => (10, s)
    end in
  match digits radix None s with
  | Some v => of_Z (if negative then - v else v)
  | None => NaN
  end.

(** ** Time codes *)

(** [const timeValue = parseInt(time.toString().replace('t', ''))] *)
Definition timeValue (time : string) : number :=
  parseInt (Str.replace_first "t" "" time).

(** [const totalSeconds = timeValue / tickRate] *)
Definition totalSeconds (time : string) (tickRate : number) : number :=
  Num.div (timeValue time) tickRate.

(** The four fields of the time code and their layout. *)
Definition timeCode (totalSeconds : number) : string :=
  let hours := floor (Num.div totalSeconds (of_Z 3600)) in
  let minutes := floor (Num.div (rem totalSeconds (of_Z 3600)) (of_Z 60)) in
  let seconds := floor (rem totalSeconds (of_Z 60)) in
  let milliseconds :=
    floor (mul (sub totalSeconds (floor totalSeconds)) (of_Z 1000)) in
  Str.padStart 2 (toString hours) ++ ":" ++
  Str.padStart 2 (toString minutes) ++ ":" ++
  Str.padStart 2 (toString seconds) ++ "," ++
  Str.padStart 3 (toString milliseconds).

Definition convertTimeToSRT (time : string) (tickRate : number) : string :=
  timeCode (totalSeconds time tickRate).

(** ** The regular expressions of the extraction

    Each expression is a sequence of literals, of greedy runs whose
    following literal starts with a character outside the run, and of one
    lazy [[\s\S]*?] closed by a literal; matching at a given position is
    therefore deterministic and is written out directly.  A matcher returns
    its captures and the text after the match.  In the comments an
    apostrophe stands for the double quote of the source. *)

Module Regex.

Definition bind {A B : Type} (o : option A) (k : A -> option B) : option B :=
  match o with
  | Some a => k a
  | None => None
  end.

Notation "x <- e ;; k" := (bind e (fun x => k))
  (at level 61, e at next level, right associativity).
Notation "' p <- e ;; k" := (bind e (fun x => let 'p := x in k))
  (at level 61, p pattern, e at next level, right associativity).

Definition lit : string -> string -> option string := Str.strip_prefix.

Definition is_digit (c : ascii) : bool :=
  let n := nat_of_ascii c in (48 <=? n)%nat && (n <=? 57)%nat.

(** Longest prefix of characters satisfying [f], and the rest. *)
Fixpoint span (f : ascii -> bool) (s : string) : string * string :=
  match s with
  | String c s' =>
      if f c then let (run, rest) := span f s' in (String c run, rest)
      else (EmptyString, s)
  | EmptyString => (EmptyString, EmptyString)
  end.

(** [\d+] *)
Definition digits1 (s : string) : option (string * string) :=
  match span is_digit s with
  | (EmptyString, _) => None
  | found => Some found
  end.

(** [[\s\S]*?] followed by the literal [close]: up to the first occurrence
    of [close]. *)
Fixpoint lazy_until (close s : string) : option (string * string) :=
  match lit close s with
  | Some rest => Some (EmptyString, rest)
  | None =>
      match s with
      | EmptyString => None
      | String c s' =>
          '(body, rest) <- lazy_until close s' ;; Some (String c body, rest)
      end
  end.

(** The loop [while ((match = re.exec(text)) !== null)] of a global
    expression: the successive leftmost matches, each search starting where
    the previous match ended.  [skip] counts the characters of the last
    match still to be passed. *)
Fixpoint exec_from {A : Type} (re : string -> option (A * string))
    (skip : nat) (s : string) : list A :=
  match s with
  | EmptyString => []
  | String _ s' =>
      match skip with
      | S k => exec_from re k s'
      | O =>
          match re s with
          | Some (a, rest) =>
              a :: exec_from re (String.length s - String.length rest - 1) s'
          | None => exec_from re 0 s'
          end
      end
  end.

Definition exec_all {A : Type} (re : string -> option (A * string))
    (s : string) : list A :=
  exec_from re 0 s.

(** [text.match(re)] of an expression without the global flag: the leftmost
    match, if any. *)
Fixpoint first_match {A : Type} (re : string -> option (A * string))
    (s : string) : option A :=
  match re s with
  | Some (a, _) => Some a
  | None =>
      match s with
      | EmptyString => None
      | String _ s' => first_match re s'
      end
  end.

(** [/ttp:tickRate='(\d+)'/] *)
Definition tickRateRegex (s : string) : option (string * string) :=
  s <- lit (Str.quoted "ttp:tickRate='") s ;;
  '(rate, s) <- digits1 s ;;
  s <- lit Str.dq s ;;
  Some (rate, s).

(** The part the two subtitle expressions share:
    [<p xml:id='subtitle\d+' begin='(\d+t)' end='(\d+t)' region='region\d+] *)
Definition paragraphHead (s : string) : option (string * string * string) :=
  s <- lit (Str.quoted "<p xml:id='subtitle") s ;;
  '(_, s) <- digits1 s ;;
  s <- lit (Str.quoted "' begin='") s ;;
  '(b, s) <- digits1 s ;;
  s <- lit "t" s ;;
  s <- lit (Str.quoted "' end='") s ;;
  '(e, s) <- digits1 s ;;
  s <- lit "t" s ;;
  s <- lit (Str.quoted "' region='region") s ;;
  '(_, s) <- digits1 s ;;
  Some (b ++ "t", e ++ "t", s).

(** [/<p xml:id='subtitle\d+' begin='(\d+t)' end='(\d+t)'
      region='region\d+' style='style\d+'>([\s\S]*?)<\/p>/g] *)
Definition krSubtitleRegex (s : string)
  : option (string * string * string * string) :=
  '(b, e, s) <- paragraphHead s ;;
  s <- lit (Str.quoted "' style='style") s ;;
  '(_, s) <- digits1 s ;;
  s <- lit (Str.quoted "'>") s ;;
  '(body, s) <- lazy_until "</p>" s ;;
  Some (b, e, body, s).

(** [/<p xml:id='subtitle\d+' begin='(\d+t)' end='(\d+t)'
      region='region\d+'>([\s\S]*?)<\/p>/g] *)
Definition chSubtitleRegex (s : string)
  : option (string * string * string * string) :=
  '(b, e, s) <- paragraphHead s ;;
  s <- lit (Str.quoted "'>") s ;;
  '(body, s) <- lazy_until "</p>" s ;;
  Some (b, e, body, s).

(** [/<span[^>]*>([\s\S]*?)<\/span>/g] *)
Definition spanRegex (s : string) : option (string * string) :=
  s <- lit "<span" s ;;
  let (_, s) := span (fun c => negb (Ascii.eqb c ">"%char)) s in
  s <- lit ">" s ;;
  '(body, s) <- lazy_until "</span>" s ;;
  Some (body, s).

End Regex.

(** ** Cue extraction *)

Record Cue : Type := { begin : string; end_ : string; text : string }.

(** [text.replace(/<br\/>/g, '\n')] *)
Definition breaksToNewlines (s : string) : string :=
  Str.replace_all "<br/>" Str.nl s.

(** The inner loop of the Chinese format: the contents of the [span]
    elements, joined by line feeds. *)
Definition spanText (content : string) : string :=
  fold_left
    (fun text spanMatch =>
       (if String.eqb text "" then text else text ++ Str.nl) ++ spanMatch)
    (Regex.exec_all Regex.spanRegex content) "".

Definition extractSubtitlesWithRegex (xmlContent language : string)
  : list Cue :=
  if String.eqb language "kr" then
    map (fun m : string * string * string =>
           let '(b, e, body) := m in
           {| begin := b; end_ := e; text := breaksToNewlines body |})
        (Regex.exec_all Regex.krSubtitleRegex xmlContent)
  else if String.eqb language "ch" then
    map (fun m : string * string * string =>
           let '(b, e, content) := m in
           {| begin := b; end_ := e;
              text := breaksToNewlines (spanText content) |})
        (Regex.exec_all Regex.chSubtitleRegex xmlContent)
  else [].

(** [tickRateMatch ? parseInt(tickRateMatch[1]) : 10000000] *)
Definition extractTickRate (xmlData : string) : number :=
  match Regex.first_match Regex.tickRateRegex xmlData with
  | Some rate => parseInt rate
  | None => of_Z 10000000
  end.

(** ** Sorting *)

Section Sort.

Context {A : Type} (compareFn : A -> A -> number).

(** [compareFn(x, y) > 0]: [y] has to come before [x].  A comparator result
    that is zero, negative or [NaN] leaves [x] in front. *)
Definition comesAfter (x y : A) : bool := ltb (of_Z 0) (compareFn x y).

Fixpoint insert (x : A) (l : list A) : list A :=
  match l with
  | [] => [x]
  | y :: l' => if comesAfter x y then y :: insert x l' else x :: l
  end.

(** [array.sort(compareFn)] *)
Definition sort (l : list A) : list A := fold_right insert [] l.

End Sort.

(** [parseInt(sub.begin.replace('t', ''))] *)
Definition startTimeOf (sub : Cue) : number := timeValue (begin sub).

(** The comparator of the two sorts of the paired mode. *)
Definition byBegin (a b : Cue) : number :=
  sub (startTimeOf a) (startTimeOf b).

(** ** Output entries

    One iteration of a combination loop appends one block to the output
    text: the running index and the time range (SRT only), then each text
    followed by a line feed, then an empty line. *)

Record Entry : Type := {
  index : nat;
  timeRange : option (string * string);
  texts : list string
}.

Definition timeLine (range : string * string) : string :=
  fst range ++ " --> " ++ snd range ++ Str.nl.

(** Concatenation of a list of strings. *)
Definition joinAll (l : list string) : string := fold_right append "" l.

Definition render (e : Entry) : string :=
  match timeRange e with
  | Some range => Str.of_nat (index e) ++ Str.nl ++ timeLine range
  | None => ""
  end ++ joinAll (map (fun t => t ++ Str.nl) (texts e)) ++ Str.nl.

Definition renderAll (entries : list Entry) : string :=
  joinAll (map render entries).

(** ** Paired mode *)

(** The three variables of the search for the best match. *)
Record Best : Type := {
  bestMatch : option Cue;
  bestMatchIndex : Z;
  minTimeDiff : number
}.

Definition noBest : Best :=
  {| bestMatch := None; bestMatchIndex := -1;
     minTimeDiff := MAX_SAFE_INTEGER |}.

Definition searchWindow : Z := 10.

Definition startJ (j : Z) : Z := Z.max 0 (j - 2).

Definition endJ (subtitles2 : list Cue) (j : Z) : Z :=
  Z.min (Z.of_nat (List.length subtitles2)) (startJ j + searchWindow).

(** The values [k] takes in [for (let k = lo; k < hi; k++)]. *)
Definition range (lo hi : Z) : list Z :=
  map (fun i => lo + Z.of_nat i) (seq 0 (Z.to_nat (hi - lo))).

(** The body of the inner loop at index [k].  The loop bounds keep [k]
    inside [subtitles2] (lemma [range_window_lookup]), so the last branch
    is never taken. *)
Definition inspect (startTime1 : number) (subtitles2 : list Cue)
    (best : Best) (k : Z) : Best :=
  match nth_error subtitles2 (Z.to_nat k) with
  | Some subtitle2 =>
      let startTime2 := startTimeOf subtitle2 in
      let timeDiff := Num.abs (sub startTime1 startTime2) in
      if ltb timeDiff (minTimeDiff best) then
        {| bestMatch := Some subtitle2; bestMatchIndex := k;
           minTimeDiff := timeDiff |}
      else best
  | None => best
  end.

Definition findBest (subtitles2 : list Cue) (j : Z) (subtitle1 : Cue)
  : Best :=
  fold_left (inspect (startTimeOf subtitle1) subtitles2)
    (range (startJ j) (endJ subtitles2 j)) noBest.

(** [bestMatch && minTimeDiff < 10000000] *)
Definition accepted (b : Best) : bool :=
  match bestMatch b with
  | Some _ => ltb (minTimeDiff b) (of_Z 10000000)
  | None => false
  end.

(** The text appended after the primary one, if any. *)
Definition secondText (b : Best) : list string :=
  match bestMatch b with
  | Some subtitle2 => if accepted b then [text subtitle2] else []
  | None => []
  end.

(** The cursor after an iteration. *)
Definition advance (j : Z) (b : Best) : Z :=
  if accepted b then bestMatchIndex b + 1 else j.

(** The state of the outer loop of [createCombinedSRTPaired], and one
    iteration of it. *)
Record PairedState : Type := { content : string; nextIndex : nat; j : Z }.

Definition pairedSRTStep (tickRate1 : number) (subtitles2 : list Cue)
    (st : PairedState) (subtitle1 : Cue) : PairedState :=
  let b := findBest subtitles2 (j st) subtitle1 in
  {| content :=
       content st ++ Str.of_nat (nextIndex st) ++ Str.nl
       ++ (convertTimeToSRT (begin subtitle1) tickRate1 ++ " --> "
           ++ convertTimeToSRT (end_ subtitle1) tickRate1 ++ Str.nl)
       ++ (text subtitle1 ++ Str.nl)
       ++ (match bestMatch b with
           | Some subtitle2 =>
               if accepted b then text subtitle2 ++ Str.nl else ""
           | None => ""
           end)
       ++ Str.nl;
     nextIndex := S (nextIndex st);
     j := advance (j st) b |}.

Definition pairedSRT (tickRate1 : number) (subtitles1 subtitles2 : list Cue)
  : string :=
  content
    (fold_left (pairedSRTStep tickRate1 subtitles2) subtitles1
       {| content := ""; nextIndex := 1; j := 0 |}).

(** The same loop in [createCombinedTXTPaired]: no index, no time range. *)
Definition pairedTXTStep (subtitles2 : list Cue)
    (st : PairedState) (subtitle1 : Cue) : PairedState :=
  let b := findBest subtitles2 (j st) subtitle1 in
  {| content :=
       content st ++ (text subtitle1 ++ Str.nl)
       ++ (match bestMatch b with
           | Some subtitle2 =>
               if accepted b then text subtitle2 ++ Str.nl else ""
           | None => ""
           end)
       ++ Str.nl;
     nextIndex := nextIndex st;
     j := advance (j st) b |}.

Definition pairedTXT (subtitles1 subtitles2 : list Cue) : string :=
  content
    (fold_left (pairedTXTStep subtitles2) subtitles1
       {| content := ""; nextIndex := 1; j := 0 |}).

(** *** The pass, iteration by iteration

    [pairedPass] records, for each cue of [subtitles1], the cursor at the
    start of the iteration and the outcome of the search; the entries of the
    output are read off it. *)
Record Iteration : Type := { cursor : Z; primary : Cue; best : Best }.

Fixpoint pairedPass (subtitles2 : list Cue) (j : Z) (subtitles1 : list Cue)
  : list Iteration :=
  match subtitles1 with
  | [] => []
  | subtitle1 :: rest =>
      let b := findBest subtitles2 j subtitle1 in
      {| cursor := j; primary := subtitle1; best := b |}
        :: pairedPass subtitles2 (advance j b) rest
  end.

Definition pairedEntry (tickRate1 : option number) (i : nat)
    (it : Iteration) : Entry :=
  {| index := i;
     timeRange :=
       match tickRate1 with
       | Some r =>
           Some (convertTimeToSRT (begin (primary it)) r,
                 convertTimeToSRT (end_ (primary it)) r)
       | None => None
       end;
     texts := text (primary it) :: secondText (best it) |}.

(** [number_from i f l] applies [f] to the elements of [l] together with
    their running index, which starts at [i]. *)
Fixpoint number_from {A B : Type} (i : nat) (f : nat -> A -> B) (l : list A)
  : list B :=
  match l with
  | [] => []
  | x :: l' => f i x :: number_from (S i) f l'
  end.

Definition pairedEntries (tickRate1 : option number)
    (subtitles1 subtitles2 : list Cue) : list Entry :=
  number_from 1 (pairedEntry tickRate1) (pairedPass subtitles2 0 subtitles1).

(** The pairs (position in [subtitles1], position in [subtitles2]) the pass
    matches. *)
Definition matchedAt (i : nat) (it : Iteration) : list (nat * Z) :=
  if accepted (best it) then [(i, bestMatchIndex (best it))] else [].

Definition pairedMatches (subtitles1 subtitles2 : list Cue)
  : list (nat * Z) :=
  List.concat (number_from 0 matchedAt (pairedPass subtitles2 0 subtitles1)).

(** ** Timeline mode *)

(** An element of [mergedSubtitles]: the fields of the cue (the spread
    [...sub]) and the three added ones. *)
Record Merged : Type := {
  cue : Cue;
  language : string;
  tickRate : number;
  startTime : number
}.

Definition tagged (language : string) (tickRate : number) (sub : Cue)
  : Merged :=
  {| cue := sub; language := language; tickRate := tickRate;
     startTime := startTimeOf sub |}.

Definition mergedSubtitles (language1 language2 : string)
    (tickRate1 tickRate2 : number) (subtitles1 subtitles2 : list Cue)
  : list Merged :=
  map (tagged language1 tickRate1) subtitles1
  ++ map (tagged language2 tickRate2) subtitles2.

(** [(a, b) => a.startTime - b.startTime] *)
Definition byStartTime (a b : Merged) : number :=
  sub (startTime a) (startTime b).

(** The merged array after [mergedSubtitles.sort(...)]. *)
Definition timelineOrder (language1 language2 : string)
    (tickRate1 tickRate2 : number) (subtitles1 subtitles2 : list Cue)
  : list Merged :=
  sort byStartTime
    (mergedSubtitles language1 language2 tickRate1 tickRate2
       subtitles1 subtitles2).

(** One iteration of the output loop of [createCombinedSRTTimeline]. *)
Definition timelineSRTStep (st : string * nat) (subtitle : Merged)
  : string * nat :=
  (fst st ++ Str.of_nat (snd st) ++ Str.nl
   ++ (convertTimeToSRT (begin (cue subtitle)) (tickRate subtitle) ++ " --> "
       ++ convertTimeToSRT (end_ (cue subtitle)) (tickRate subtitle) ++ Str.nl)
   ++ (text (cue subtitle) ++ Str.nl ++ Str.nl),
   S (snd st)).

Definition timelineSRT (language1 language2 : string)
    (tickRate1 tickRate2 : number) (subtitles1 subtitles2 : list Cue)
  : string :=
  fst (fold_left timelineSRTStep
         (timelineOrder language1 language2 tickRate1 tickRate2
            subtitles1 subtitles2)
         ("", 1%nat)).

(** The entry an element of the sorted array is printed as. *)
Definition timelineEntry (i : nat) (subtitle : Merged) : Entry :=
  {| index := i;
     timeRange :=
       Some (convertTimeToSRT (begin (cue subtitle)) (tickRate subtitle),
             convertTimeToSRT (end_ (cue subtitle)) (tickRate subtitle));
     texts := [text (cue subtitle)] |}.

Definition timelineEntries (language1 language2 : string)
    (tickRate1 tickRate2 : number) (subtitles1 subtitles2 : list Cue)
  : list Entry :=
  number_from 1 timelineEntry
    (timelineOrder language1 language2 tickRate1 tickRate2
       subtitles1 subtitles2).

(** [createCombinedTXTTimeline] reads no tick rate: its merged elements
    carry the cue, the language and the start time only, and its output has
    the texts alone. *)
Record MergedTXT : Type := {
  cueTXT : Cue;
  languageTXT : string;
  startTimeTXT : number
}.

Definition taggedTXT (language : string) (sub : Cue) : MergedTXT :=
  {| cueTXT := sub; languageTXT := language; startTimeTXT := startTimeOf sub |}.

Definition timelineTXT (language1 language2 : string)
    (subtitles1 subtitles2 : list Cue) : string :=
  fold_left
    (fun txtContent subtitle =>
       txtContent ++ (text (cueTXT subtitle) ++ Str.nl ++ Str.nl))
    (sort (fun a b => sub (startTimeTXT a) (startTimeTXT b))
       (map (taggedTXT language1) subtitles1
        ++ map (taggedTXT language2) subtitles2))
    "".

(** ** Files and the exported operations *)

(** The files the operations read and write: contents by path. *)
Definition Files : Type := string -> option string.

(** An operation either resolves with a value and the files it leaves, or
    rejects (the [catch] blocks log the error and throw it again). *)
Inductive Outcome (A : Type) : Type :=
| Resolved (a : A) (fs : Files)
| Rejected.

Arguments Resolved {A} a fs.
Arguments Rejected {A}.

Definition IO (A : Type) : Type := Files -> Outcome A.

Definition resolve {A : Type} (a : A) : IO A := fun fs => Resolved a fs.

Definition await {A B : Type} (m : IO A) (k : A -> IO B) : IO B :=
  fun fs =>
    match m fs with
    | Resolved a fs' => k a fs'
    | Rejected => Rejected
    end.

Notation "'let*' x := m 'in' k" := (await m (fun x => k))
  (at level 10, x name, m at level 100, k at level 200).

(** [fs.readFile(path, 'utf-8')] rejects when there is no such file. *)
Definition readFile (path : string) : IO string :=
  fun fs =>
    match fs path with
    | Some data => Resolved data fs
    | None => Rejected
    end.

(** [fs.writeFile(path, data)] *)
Definition writeFile (path data : string) : IO unit :=
  fun fs =>
    Resolved tt (fun p => if String.eqb p path then Some data else fs p).

(** The entries of [convertToSRT] and [convertToTXT]. *)
Definition singleEntry (tickRate : option number) (i : nat) (subtitle : Cue)
  : Entry :=
  {| index := i;
     timeRange :=
       match tickRate with
       | Some r =>
           Some (convertTimeToSRT (begin subtitle) r,
                 convertTimeToSRT (end_ subtitle) r)
       | None => None
       end;
     texts := [text subtitle] |}.

Definition convertToSRT (xmlFilePath outputFilePath language : string)
  : IO (list Cue) :=
  let* xmlData := readFile xmlFilePath in
  let tickRate := extractTickRate xmlData in
  let subtitles := extractSubtitlesWithRegex xmlData language in
  let srtContent :=
    renderAll (number_from 1 (singleEntry (Some tickRate)) subtitles) in
  let* _ := writeFile outputFilePath srtContent in
  resolve subtitles.

Definition convertToTXT (xmlFilePath outputFilePath language : string)
  : IO (list Cue) :=
  let* xmlData := readFile xmlFilePath in
  let subtitles := extractSubtitlesWithRegex xmlData language in
  let txtContent := renderAll (number_from 1 (singleEntry None) subtitles) in
  let* _ := writeFile outputFilePath txtContent in
  resolve subtitles.

Definition createCombinedSRTPaired
    (xmlFile1 xmlFile2 outputFilePath language1 language2 : string)
  : IO unit :=
  let* xmlData1 := readFile xmlFile1 in
  let* xmlData2 := readFile xmlFile2 in
  let tickRate1 := extractTickRate xmlData1 in
  let subtitles1 :=
    sort byBegin (extractSubtitlesWithRegex xmlData1 language1) in
  let subtitles2 :=
    sort byBegin (extractSubtitlesWithRegex xmlData2 language2) in
  writeFile outputFilePath (pairedSRT tickRate1 subtitles1 subtitles2).

Definition createCombinedTXTPaired
    (xmlFile1 xmlFile2 outputFilePath language1 language2 : string)
  : IO unit :=
  let* xmlData1 := readFile xmlFile1 in
  let* xmlData2 := readFile xmlFile2 in
  let subtitles1 :=
    sort byBegin (extractSubtitlesWithRegex xmlData1 language1) in
  let subtitles2 :=
    sort byBegin (extractSubtitlesWithRegex xmlData2 language2) in
  writeFile outputFilePath (pairedTXT subtitles1 subtitles2).

Definition createCombinedSRTTimeline
    (xmlFile1 xmlFile2 outputFilePath language1 language2 : string)
  : IO unit :=
  let* xmlData1 := readFile xmlFile1 in
  let* xmlData2 := readFile xmlFile2 in
  let tickRate1 := extractTickRate xmlData1 in
  let tickRate2 := extractTickRate xmlData2 in
  let subtitles1 := extractSubtitlesWithRegex xmlData1 language1 in
  let subtitles2 := extractSubtitlesWithRegex xmlData2 language2 in
  writeFile outputFilePath
    (timelineSRT language1 language2 tickRate1 tickRate2
       subtitles1 subtitles2).

Definition createCombinedTXTTimeline
    (xmlFile1 xmlFile2 outputFilePath language1 language2 : string)
  : IO unit :=
  let* xmlData1 := readFile xmlFile1 in
  let* xmlData2 := readFile xmlFile2 in
  let subtitles1 := extractSubtitlesWithRegex xmlData1 language1 in
  let subtitles2 := extractSubtitlesWithRegex xmlData2 language2 in
  writeFile outputFilePath
    (timelineTXT language1 language2 subtitles1 subtitles2).

(** The mode defaults to ['timeline']; every mode other than ['paired']
    takes the timeline branch. *)
Definition createCombinedSRT
    (xmlFile1 xmlFile2 outputFilePath language1 language2 mode : string)
  : IO unit :=
  if String.eqb mode "paired" then
    createCombinedSRTPaired xmlFile1 xmlFile2 outputFilePath
      language1 language2
  else
    createCombinedSRTTimeline xmlFile1 xmlFile2 outputFilePath
      language1 language2.

Definition createCombinedTXT
    (xmlFile1 xmlFile2 outputFilePath language1 language2 mode : string)
  : IO unit :=
  if String.eqb mode "paired" then
    createCombinedTXTPaired xmlFile1 xmlFile2 outputFilePath
      language1 language2
  else
    createCombinedTXTTimeline xmlFile1 xmlFile2 outputFilePath
      language1 language2.

(** The content an operation leaves in a file, when it resolves. *)
Definition written {A : Type} (o : Outcome A) (path : string)
  : option string :=
  match o with
  | Resolved _ fs => fs path
  | Rejected => None
  end.

(** ** Auxiliary predicates *)

(** What the search has found after any part of the window. *)
Definition found_in (startTime1 : number) (subtitles2 : list Cue)
    (ks : list Z) (b : Best) : Prop :=
  (b = noBest) \/
  (exists subtitle2,
      In (bestMatchIndex b) ks /\
      nth_error subtitles2 (Z.to_nat (bestMatchIndex b)) = Some subtitle2 /\
      bestMatch b = Some subtitle2 /\
      minTimeDiff b = Num.abs (sub startTime1 (startTimeOf subtitle2))).

(** The start of a cue in seconds: its ticks over the tick rate of its
    file, the quotient [convertTimeToSRT] prints; and the distance in
    seconds between the starts of two cues. *)
Definition startSeconds (tickRate : number) (sub : Cue) : number :=
  totalSeconds (begin sub) tickRate.

Definition gapSeconds (tickRate1 tickRate2 : number) (a b : Cue) : number :=
  Num.abs (sub (startSeconds tickRate1 a) (startSeconds tickRate2 b)).

(** A start time that is an integral number of ticks, and the ticks it
    holds. *)
Definition ticksOf (n : number) : Z :=
  match n with
  | Finite q => Qfloor q
  | _ => 0
  end.

Definition isTicks (n : number) : Prop := n = of_Z (ticksOf n).

(** A tick time as the expressions capture it: decimal digits, at least
    one, followed by the letter t. *)
Fixpoint allDigits (s : string) : bool :=
  match s with
  | EmptyString => true
  | String c s' => Regex.is_digit c && allDigits s'
  end.

Definition tickString (s : string) : Prop :=
  exists d, s = d ++ "t" /\ d <> "" /\ allDigits d = true.

(** Ascending order of a key. *)
Definition ascending {A : Type} (key : A -> Z) (a b : A) : Prop :=
  key a <= key b.

(** The tick difference between [t1] and the start of the secondary cue of
    index [k]. *)
Definition tickDistance (subtitles2 : list Cue) (t1 k : Z) : Z :=
  match nth_error subtitles2 (Z.to_nat k) with
  | Some sub => Z.abs (t1 - ticksOf (startTimeOf sub))
  | None => 0
  end.

(** The variables of the search after the [n] first indices of a window
    that starts at [lo]. *)
Definition searchedUpTo (subtitles2 : list Cue) (t1 lo : Z) (n : nat)
  : Best :=
  fold_left (inspect (of_Z t1) subtitles2) (range lo (lo + Z.of_nat n)) noBest.

(** The shape the four combination operations share: read the two files,
    compute a text from their contents, write it. *)
Definition combining (compute : string -> string -> string)
    (xmlFile1 xmlFile2 outputFilePath : string) : IO unit :=
  let* xmlData1 := readFile xmlFile1 in
  let* xmlData2 := readFile xmlFile2 in
  writeFile outputFilePath (compute xmlData1 xmlData2).

(** ** The first version of the combination

    [src/index.js] holds two versions of the module.  The first one has the
    same conversions and one combination without modes: the cues of the
    second file are looked up by their begin string, then by proximity. *)

Module Legacy.

(** [subtitlesMap2], a [Map] from begin strings to cues: the entries in
    insertion order; setting an existing key replaces its value. *)
Definition CueMap : Type := list (string * Cue).

Fixpoint set (key : string) (value : Cue) (m : CueMap) : CueMap :=
  match m with
  | [] => [(key, value)]
  | (k, v) :: m' =>
      if String.eqb k key then (k, value) :: m'
      else (k, v) :: set key value m'
  end.

Fixpoint get (key : string) (m : CueMap) : option Cue :=
  match m with
  | [] => None
  | (k, v) :: m' => if String.eqb k key then Some v else get key m'
  end.

(** [subtitles2.forEach((subtitle) => subtitlesMap2.set(subtitle.begin,
    subtitle))] *)
Definition subtitlesMap2 (subtitles2 : list Cue) : CueMap :=
  fold_left (fun m subtitle => set (begin subtitle) subtitle m)
    subtitles2 [].

(** The predicate of [subtitles2.find]:
    [Math.abs(time1 - time2) < 5000000]. *)
Definition near (startTime : string) (s : Cue) : bool :=
  let time1 := timeValue startTime in
  let time2 := timeValue (begin s) in
  ltb (Num.abs (sub time1 time2)) (of_Z 5000000).

(** [subtitlesMap2.get(startTime) || subtitles2.find(...)]; a cue is an
    object, hence truthy. *)
Definition subtitle2For (subtitles2 : list Cue) (subtitle1 : Cue)
  : option Cue :=
  match get (begin subtitle1) (subtitlesMap2 subtitles2) with
  | Some s => Some s
  | None => find (near (begin subtitle1)) subtitles2
  end.

(** One call of the callback of [subtitles1.forEach] in
    [createCombinedSRT]. *)
Definition srtStep (tickRate1 : number) (subtitles2 : list Cue)
    (st : string * nat) (subtitle1 : Cue) : string * nat :=
  (fst st ++ Str.of_nat (snd st) ++ Str.nl
   ++ (convertTimeToSRT (begin subtitle1) tickRate1 ++ " --> "
       ++ convertTimeToSRT (end_ subtitle1) tickRate1 ++ Str.nl)
   ++ (text subtitle1 ++ Str.nl)
   ++ (match subtitle2For subtitles2 subtitle1 with
       | Some subtitle2 => text subtitle2 ++ Str.nl
       | None => ""
       end)
   ++ Str.nl,
   S (snd st)).

Definition combinedSRT (tickRate1 : number)
    (subtitles1 subtitles2 : list Cue) : string :=
  fst (fold_left (srtStep tickRate1 subtitles2) subtitles1 ("", 1%nat)).

(** The same callback in [createCombinedTXT]. *)
Definition txtStep (subtitles2 : list Cue) (txtContent : string)
    (subtitle1 : Cue) : string :=
  txtContent ++ (text subtitle1 ++ Str.nl)
  ++ (match subtitle2For subtitles2 subtitle1 with
      | Some subtitle2 => text subtitle2 ++ Str.nl
      | None => ""
      end)
  ++ Str.nl.

Definition combinedTXT (subtitles1 subtitles2 : list Cue) : string :=
  fold_left (txtStep subtitles2) subtitles1 "".

(** The entry a cue of the first file is printed as. *)
Definition entry (tickRate1 : option number) (subtitles2 : list Cue)
    (i : nat) (subtitle1 : Cue) : Entry :=
  {| index := i;
     timeRange :=
       match tickRate1 with
       | Some r =>
           Some (convertTimeToSRT (begin subtitle1) r,
                 convertTimeToSRT (end_ subtitle1) r)
       | None => None
       end;
     texts :=
       text subtitle1 ::
       match subtitle2For subtitles2 subtitle1 with
       | Some subtitle2 => [text subtitle2]
       | None => []
       end |}.

Definition entries (tickRate1 : option number)
    (subtitles1 subtitles2 : list Cue) : list Entry :=
  number_from 1 (entry tickRate1 subtitles2) subtitles1.

Definition createCombinedSRT
    (xmlFile1 xmlFile2 outputFilePath language1 language2 : string)
  : IO unit :=
  let* xmlData1 := readFile xmlFile1 in
  let* xmlData2 := readFile xmlFile2 in
  let tickRate1 := extractTickRate xmlData1 in
  let subtitles1 := extractSubtitlesWithRegex xmlData1 language1 in
  let subtitles2 := extractSubtitlesWithRegex xmlData2 language2 in
  writeFile outputFilePath (combinedSRT tickRate1 subtitles1 subtitles2).

Definition createCombinedTXT
    (xmlFile1 xmlFile2 outputFilePath language1 language2 : string)
  : IO unit :=
  let* xmlData1 := readFile xmlFile1 in
  let* xmlData2 := readFile xmlFile2 in
  let subtitles1 := extractSubtitlesWithRegex xmlData1 language1 in
  let subtitles2 := extractSubtitlesWithRegex xmlData2 language2 in
  writeFile outputFilePath (combinedTXT subtitles1 subtitles2).

End Legacy.

(** ** The main function

    [main] converts the two episode files, then combines them, inside one
    [try] block whose [catch] only logs: the first operation that rejects
    ends the run, and what the earlier ones have written stays.  The
    operations read their input before they write, so that the files at a
    rejection are those the operation was started on. *)

(** [path.join(dir, name)], for a normalized [dir] and POSIX separators. *)
Definition join (dir name : string) : string := dir ++ "/" ++ name.

(** [try { await m; rest } catch (error) { console.error(...) }] *)
Definition attempt {A : Type} (m : IO A) (rest : Files -> Files)
  : Files -> Files :=
  fun fs =>
    match m fs with
    | Resolved _ fs' => rest fs'
    | Rejected => fs
    end.

(** [root] is the directory that holds [src]:
    [path.join(__dirname, '..', name)] is [join root name]. *)
Definition outputDir (root : string) : string := join root "output".

Definition main (root : string) : Files -> Files :=
  let krXmlPath := join root "ep1-kr.xml" in
  let chXmlPath := join root "ep1-ch.xml" in
  let krSrtPath := join (outputDir root) "ep1-kr.srt" in
  let krTxtPath := join (outputDir root) "ep1-kr.txt" in
  let chSrtPath := join (outputDir root) "ep1-ch.srt" in
  let chTxtPath := join (outputDir root) "ep1-ch.txt" in
  let combinedSrtPath := join (outputDir root) "ep1-combined.srt" in
  let combinedTxtPath := join (outputDir root) "ep1-combined.txt" in
  attempt (convertToSRT krXmlPath krSrtPath "kr")
  (attempt (convertToTXT krXmlPath krTxtPath "kr")
  (attempt (convertToSRT chXmlPath chSrtPath "ch")
  (attempt (convertToTXT chXmlPath chTxtPath "ch")
  (attempt
     (createCombinedSRT krXmlPath chXmlPath combinedSrtPath
        "kr" "ch" "timeline")
  (attempt
     (createCombinedTXT krXmlPath chXmlPath combinedTxtPath
        "kr" "ch" "timeline")
     (fun fs => fs)))))).

(** ** Further auxiliary definitions *)

(** [occursIn pat s]: the literal [pat] occurs somewhere in [s]. *)
Fixpoint occursIn (pat s : string) : bool :=
  match Str.strip_prefix pat s with
  | Some _ => true
  | None =>
      match s with
      | EmptyString => false
      | String _ s' => occursIn pat s'
      end
  end.

(** The start of a merged cue in seconds, by the tick rate it carries, and
    the order in which no cue starts later than the next one. *)
Definition mergedSeconds (m : Merged) : number :=
  startSeconds (tickRate m) (cue m).

Definition notLater (a b : Merged) : Prop :=
  ltb (mergedSeconds b) (mergedSeconds a) = false.

(** From the tick count [t] on, the secondary cue before the cursor [j] is
    strictly nearer than the cue two before it. *)
Definition settled (subtitles2 : list Cue) (j t : Z) : Prop :=
  2 <= j ->
  forall p, t <= p ->
    tickDistance subtitles2 p (j - 1) < tickDistance subtitles2 p (j - 2).

(** An entry without its number and time range, as the TXT output prints
    it. *)
Definition untimed (e : Entry) : Entry :=
  {| index := index e; timeRange := None; texts := texts e |}.

(** The tick count of the start of a cue. *)
Definition startTicks (sub : Cue) : Z := ticksOf (startTimeOf sub).

(** The cues a combination in paired mode works on: those of the document,
    sorted by their begin. *)
Definition sortedCues (xmlData language : string) : list Cue :=
  sort byBegin (extractSubtitlesWithRegex xmlData language).

(** The safe integers from 0 on, as [Number.isSafeInteger] has them: below
    [2^53] the numbers of the code hold every integer, and the difference
    of two of them, exactly. *)
Definition safeInteger (n : Z) : bool := (0 <=? n) && (n <? 2 ^ 53).

(** Cues whose begin ticks are all safe integers. *)
Definition safeTicks (subtitles : list Cue) : bool :=
  forallb (fun sub => safeInteger (startTicks sub)) subtitles.

(** The files [fs] with the given contents written over them, in order. *)
Definition overlay (outputs : list (string * option string)) (fs : Files)
  : Files :=
  fold_left
    (fun (fs' : Files) (output : string * option string) =>
       fun p => if String.eqb p (fst output) then snd output else fs' p)
    outputs fs.

(** An output path with what the operation [op] leaves there when it is run
    on the files [fs], by itself. *)
Definition alone {A : Type} (op : string -> IO A) (fs : Files)
    (outputFilePath : string) : string * option string :=
  (outputFilePath, written (op outputFilePath fs) outputFilePath).

(** ** Sample documents *)

Module Sample.

(** A paragraph of the Korean format and one of the Chinese format, with
    the given number, begin and end ticks and text. *)
Definition krParagraph (n b e body : string) : string :=
  Str.quoted ("<p xml:id='subtitle" ++ n ++ "' begin='" ++ b ++ "' end='"
              ++ e ++ "' region='region0' style='style0'>")
  ++ body ++ "</p>".

Definition chParagraph (n b e body : string) : string :=
  Str.quoted ("<p xml:id='subtitle" ++ n ++ "' begin='" ++ b ++ "' end='"
              ++ e ++ "' region='region0'><span>")
  ++ body ++ "</span></p>".

(** A document declaring the tick rate [rate]. *)
Definition document (rate : string) (paragraphs : list string) : string :=
  Str.quoted ("<tt ttp:tickRate='" ++ rate ++ "'><body><div>")
  ++ joinAll paragraphs ++ "</div></body></tt>".

(** The two input files of a combination. *)
Definition disk (xml1 xml2 : string) : Files :=
  fun path =>
    if String.eqb path "a.xml" then Some xml1
    else if String.eqb path "b.xml" then Some xml2
    else None.

Definition combineSRT (mode xml1 xml2 : string) : option string :=
  written
    (createCombinedSRT "a.xml" "b.xml" "out.srt" "kr" "ch" mode
       (disk xml1 xml2))
    "out.srt".

Definition lines (l : list string) : string :=
  joinAll (map (fun t => t ++ Str.nl) l).

Definition mkCue (b e t : string) : Cue :=
  {| begin := b; end_ := e; text := t |}.

(** Two primary cues half a second apart and one secondary cue between
    them, all at 10000000 ticks per second. *)
Definition quickA : list Cue :=
  [mkCue "0t" "4000000t" "a1"; mkCue "5000000t" "9000000t" "a2"].

Definition slowB : list Cue := [mkCue "2000000t" "9000000t" "b1"].

Definition quickFirst : Iteration :=
  {| cursor := 0; primary := mkCue "0t" "4000000t" "a1";
     best := findBest slowB 0 (mkCue "0t" "4000000t" "a1") |}.

Definition quickSecond : Iteration :=
  {| cursor := 1; primary := mkCue "5000000t" "9000000t" "a2";
     best := findBest slowB 1 (mkCue "5000000t" "9000000t" "a2") |}.

(** A first file at 10000000 ticks per second whose cue starts at 1.0 s,
    and second files at 2700000 ticks per second whose cues start at 2.0 s,
    at 1.0 s, and at 1.0 s and 3.0 s. *)
Definition oneSecondKr : string :=
  document "10000000" [krParagraph "1" "10000000t" "20000000t" "a1"].

Definition twoSecondsCh : string :=
  document "2700000" [chParagraph "1" "5400000t" "8100000t" "b1"].

Definition oneSecondCh : string :=
  document "2700000" [chParagraph "1" "2700000t" "5400000t" "b1"].

Definition oneAndThreeSecondsCh : string :=
  document "2700000"
    [chParagraph "1" "2700000t" "5400000t" "b1";
     chParagraph "2" "8100000t" "10800000t" "b2"].

(** Two files at 1000 ticks per second whose cues start at 0 s and at 5 s. *)
Definition millisKr : string :=
  document "1000" [krParagraph "1" "0t" "2000t" "a1"].

Definition millisCh : string :=
  document "1000" [chParagraph "1" "5000t" "8000t" "b1"].

Definition millisDisk : Files := disk millisKr millisCh.

(** A second file at 10000000 ticks per second, with cues that start 0.4 s
    and 1.3 s after the start. *)
Definition tenMillionCh : string :=
  document "10000000"
    [chParagraph "1" "4000000t" "9000000t" "b1";
     chParagraph "2" "13000000t" "19000000t" "b2"].

(** Two files at one tick per second whose cues start at 0 s and one hour
    later. *)
Definition hourKr : string :=
  document "1" [krParagraph "1" "0t" "2t" "a1"].

Definition hourCh : string :=
  document "1" [chParagraph "1" "3600t" "3602t" "b1"].

(** Two files at 20000000 ticks per second whose cues start at 0 s and at
    0.75 s. *)
Definition fastKr : string :=
  document "20000000" [krParagraph "1" "0t" "20000000t" "a1"].

Definition fastCh : string :=
  document "20000000" [chParagraph "1" "15000000t" "30000000t" "b1"].

(** A file whose cues are not in the order of their begin. *)
Definition unorderedCh : string :=
  document "10000000"
    [chParagraph "1" "13000000t" "19000000t" "b2";
     chParagraph "2" "4000000t" "9000000t" "b1"].

End Sample.

(** * Properties *)

(** ** Strings and lists *)

Lemma append_assoc (a b c : string) : (a ++ b) ++ c = a ++ (b ++ c).
Proof.
  induction a as [|ch a IH]; simpl; [reflexivity | now rewrite IH].
Qed.

Lemma append_empty_r (a : string) : a ++ "" = a.
Proof.
  induction a as [|ch a IH]; simpl; [reflexivity | now rewrite IH].
Qed.

Lemma number_from_length {A B : Type} (f : nat -> A -> B) (l : list A) :
  forall i, List.length (number_from i f l) = List.length l.
Proof.
  induction l as [|x l IH]; intros i; simpl; [reflexivity | now rewrite IH].
Qed.

Lemma number_from_index {A : Type} (f : nat -> A -> Entry) (l : list A) :
  (forall i x, index (f i x) = i) ->
  forall i, map index (number_from i f l) = seq i (List.length l).
Proof.
  intros Hf. induction l as [|x l IH]; intros i; simpl.
  - reflexivity.
  - now rewrite Hf, IH.
Qed.

Lemma number_from_map {A B C : Type} (g : B -> C) (f : nat -> A -> B)
    (h : A -> C) (l : list A) :
  (forall i x, g (f i x) = h x) ->
  forall i, map g (number_from i f l) = map h l.
Proof.
  intros Hf. induction l as [|x l IH]; intros i; simpl.
  - reflexivity.
  - now rewrite Hf, IH.
Qed.

(** ** Start times that are tick counts *)

Lemma ticksOf_of_Z (z : Z) : ticksOf (of_Z z) = z.
Proof. apply Qfloor_Z. Qed.

Lemma isTicks_of_Z (z : Z) : isTicks (of_Z z).
Proof. unfold isTicks. now rewrite ticksOf_of_Z. Qed.

Lemma Qcompare_inject_Z (x y : Z) :
  Qcompare (inject_Z x) (inject_Z y) = Z.compare x y.
Proof. unfold Qcompare, inject_Z. cbn. now rewrite !Z.mul_1_r. Qed.

Lemma sub_of_Z (x y : Z) : sub (of_Z x) (of_Z y) = of_Z (x - y).
Proof.
  unfold sub, of_Z. f_equal.
  rewrite <- (Qred_complete (inject_Z (x - y)) (inject_Z x - inject_Z y)).
  - apply Qcanon.Qred_identity. cbn. apply Z.gcd_1_r.
  - unfold Qeq, Qminus, Qplus, Qopp, inject_Z. cbn. lia.
Qed.

Lemma ltb_of_Z (x y : Z) : ltb (of_Z x) (of_Z y) = (x <? y).
Proof.
  unfold ltb, of_Z. rewrite Qcompare_inject_Z. unfold Z.ltb.
  reflexivity.
Qed.

Lemma abs_of_Z (x : Z) : Num.abs (of_Z x) = of_Z (Z.abs x).
Proof. unfold Num.abs, of_Z, Qabs, inject_Z. reflexivity. Qed.

(** With one positive tick rate for both operands, comparing seconds is
    comparing ticks. *)
Lemma ltb_seconds (rate x y : Z) :
  0 < rate ->
  ltb (Num.div (of_Z x) (of_Z rate)) (Num.div (of_Z y) (of_Z rate))
  = (x <? y).
Proof.
  intros Hr. unfold Num.div, of_Z, is_zero.
  change (Qcompare (inject_Z rate) 0)
    with (Qcompare (inject_Z rate) (inject_Z 0)).
  rewrite (Qcompare_inject_Z rate 0).
  destruct (Z.compare_spec rate 0) as [E|E|_]; try lia.
  unfold ltb. rewrite <- Qred_compare.
  destruct rate as [|p|p]; try lia.
  unfold Qcompare, Qdiv, Qmult, Qinv, inject_Z. cbn [Qnum Qden].
  rewrite !Z.mul_1_r, Pos.mul_1_l.
  destruct (Z.compare_spec (x * Z.pos p) (y * Z.pos p)), (Z.ltb_spec x y);
    try reflexivity; nia.
Qed.

(** ** Extracted cues start at a tick count *)

Lemma digit_cases (c : ascii) :
  Regex.is_digit c = true ->
  In c ["0"; "1"; "2"; "3"; "4"; "5"; "6"; "7"; "8"; "9"]%char.
Proof.
  destruct c as [[] [] [] [] [] [] [] []]; cbv; intros H;
    try discriminate; tauto.
Qed.

Lemma span_digits (s : string) :
  allDigits (fst (Regex.span Regex.is_digit s)) = true.
Proof.
  induction s as [|c s IH]; cbn [Regex.span]; [reflexivity|].
  destruct (Regex.is_digit c) eqn:E; [|reflexivity].
  destruct (Regex.span Regex.is_digit s) as [run rest].
  cbn [fst allDigits] in *. now rewrite E, IH.
Qed.

Lemma digits1_spec (s d rest : string) :
  Regex.digits1 s = Some (d, rest) -> d <> "" /\ allDigits d = true.
Proof.
  unfold Regex.digits1. pose proof (span_digits s) as H.
  destruct (Regex.span Regex.is_digit s) as [[|c run] r]; [discriminate|].
  intros E. injection E as <- _. split; [discriminate | exact H].
Qed.

Lemma replace_t_digits (d : string) :
  allDigits d = true -> Str.replace_first "t" "" (d ++ "t") = d.
Proof.
  induction d as [|c d IH]; intros H; [reflexivity|].
  cbn [allDigits] in H. apply andb_true_iff in H as [Hc Hd].
  cbn [append Str.replace_first Str.strip_prefix].
  replace (Ascii.eqb "t" c) with false.
  - now rewrite IH.
  - apply digit_cases in Hc. cbn in Hc.
    repeat (destruct Hc as [<-|Hc]; [reflexivity|]). contradiction.
Qed.

Lemma digits_some (d : string) :
  forall acc, exists v, digits 10 (Some acc) d = Some v.
Proof.
  induction d as [|c d IH]; intros acc; cbn [digits].
  - now exists acc.
  - destruct (digit_of 10 c); [apply IH | now exists acc].
Qed.

Lemma parseInt_digits (d : string) :
  d <> "" -> allDigits d = true -> exists v, parseInt d = of_Z v.
Proof.
  destruct d as [|c d]; [congruence|]. intros _ H.
  cbn [allDigits] in H. apply andb_true_iff in H as [Hc Hd].
  assert (Hrest : forall a, exists v,
             match digits 10 (Some a) d with
             | Some v => of_Z v
             | None => NaN
             end = of_Z v).
  { intros a. destruct (digits_some d a) as [v ->]. now exists v. }
  apply digit_cases in Hc. cbn in Hc.
  destruct Hc as [<-|Hc].
  - destruct d as [|c' d']; [now exists 0|].
    cbn [allDigits] in Hd. apply andb_true_iff in Hd as [Hc' _].
    apply digit_cases in Hc'. cbn in Hc'.
    repeat (destruct Hc' as [<-|Hc']; [apply (Hrest 0)|]). contradiction.
  - repeat (destruct Hc as [<-|Hc]; [apply (Hrest _)|]). contradiction.
Qed.

Lemma tickString_ticks (s : string) : tickString s -> isTicks (timeValue s).
Proof.
  intros [d [-> [Hne Hd]]]. unfold timeValue.
  rewrite replace_t_digits by exact Hd.
  destruct (parseInt_digits d Hne Hd) as [v ->]. apply isTicks_of_Z.
Qed.

Ltac split_matches H :=
  repeat match type of H with
         | context [match ?x with _ => _ end] =>
             let E := fresh "E" in destruct x eqn:E; try discriminate H
         end.

Lemma paragraphHead_ticks (s b e rest : string) :
  Regex.paragraphHead s = Some (b, e, rest) ->
  tickString b /\ tickString e.
Proof.
  unfold Regex.paragraphHead, Regex.bind. intros H. split_matches H.
  injection H as <- <- _.
  split; eexists; (split; [reflexivity|]);
    eapply digits1_spec; eassumption.
Qed.

Lemma krSubtitleRegex_ticks (s b e body rest : string) :
  Regex.krSubtitleRegex s = Some (b, e, body, rest) ->
  tickString b /\ tickString e.
Proof.
  unfold Regex.krSubtitleRegex, Regex.bind. intros H.
  destruct (Regex.paragraphHead s) as [[[b' e'] s']|] eqn:Eh;
    [|discriminate].
  split_matches H. injection H as <- <- _ _.
  eapply paragraphHead_ticks, Eh.
Qed.

Lemma chSubtitleRegex_ticks (s b e body rest : string) :
  Regex.chSubtitleRegex s = Some (b, e, body, rest) ->
  tickString b /\ tickString e.
Proof.
  unfold Regex.chSubtitleRegex, Regex.bind. intros H.
  destruct (Regex.paragraphHead s) as [[[b' e'] s']|] eqn:Eh;
    [|discriminate].
  split_matches H. injection H as <- <- _ _.
  eapply paragraphHead_ticks, Eh.
Qed.

Lemma exec_from_Forall {A : Type} (P : A -> Prop)
    (re : string -> option (A * string)) :
  (forall s a rest, re s = Some (a, rest) -> P a) ->
  forall s skip, Forall P (Regex.exec_from re skip s).
Proof.
  intros Hre. induction s as [|c s IH]; intros skip; cbn [Regex.exec_from].
  - constructor.
  - destruct skip as [|k]; [|apply IH].
    destruct (re (String c s)) as [[a rest]|] eqn:E; [|apply IH].
    constructor; [eapply Hre, E | apply IH].
Qed.

(** Whatever the document and the language, the begin and the end of every
    extracted cue are tick strings, so every start time is a tick count. *)
Theorem extracted_cues_are_ticks (xmlContent language : string) :
  Forall
    (fun sub =>
       tickString (begin sub) /\ tickString (end_ sub) /\
       isTicks (startTimeOf sub))
    (extractSubtitlesWithRegex xmlContent language).
Proof.
  assert (Hcue : forall b e t,
             tickString b /\ tickString e ->
             tickString (begin {| begin := b; end_ := e; text := t |}) /\
             tickString (end_ {| begin := b; end_ := e; text := t |}) /\
             isTicks (startTimeOf {| begin := b; end_ := e; text := t |})).
  { intros b e t [Hb He]. repeat split; auto.
    now apply tickString_ticks. }
  unfold extractSubtitlesWithRegex.
  destruct (String.eqb language "kr"); [|destruct (String.eqb language "ch")].
  - apply Forall_map. unfold Regex.exec_all.
    apply exec_from_Forall. intros s [[b e] body] rest H.
    apply Hcue. eapply krSubtitleRegex_ticks, H.
  - apply Forall_map. unfold Regex.exec_all.
    apply exec_from_Forall. intros s [[b e] body] rest H.
    apply Hcue. eapply chSubtitleRegex_ticks, H.
  - constructor.
Qed.


Lemma extract_unknown (xmlContent language : string) :
  language <> "kr" -> language <> "ch" ->
  extractSubtitlesWithRegex xmlContent language = [].
Proof.
  intros Hkr Hch. unfold extractSubtitlesWithRegex.
  destruct (String.eqb_spec language "kr") as [E|_]; [contradiction|].
  destruct (String.eqb_spec language "ch") as [E|_]; [contradiction|].
  reflexivity.
Qed.

(** ** Sorting: a stable permutation in ascending order *)

Section SortFacts.

Context {A : Type} (compareFn : A -> A -> number).

Lemma insert_perm (x : A) (l : list A) :
  Permutation (insert compareFn x l) (x :: l).
Proof.
  induction l as [|y l IH]; simpl.
  - apply Permutation_refl.
  - destruct (comesAfter compareFn x y).
    + eapply perm_trans; [apply perm_skip, IH | apply perm_swap].
    + apply Permutation_refl.
Qed.

Lemma sort_perm (l : list A) : Permutation (sort compareFn l) l.
Proof.
  induction l as [|x l IH]; simpl.
  - apply perm_nil.
  - eapply perm_trans; [apply insert_perm | now apply perm_skip].
Qed.

Lemma sort_length (l : list A) :
  List.length (sort compareFn l) = List.length l.
Proof. apply Permutation_length, sort_perm. Qed.

End SortFacts.

Section SortByKey.

Context {A : Type} (compareFn : A -> A -> number) (key : A -> Z)
        (ok : A -> Prop).

Hypothesis compare_key :
  forall a b, ok a -> ok b -> comesAfter compareFn a b = (key b <? key a).

Lemma insert_ok (x : A) (l : list A) :
  ok x -> Forall ok l -> Forall ok (insert compareFn x l).
Proof.
  intros Hx Hl. eapply Permutation_Forall.
  - apply Permutation_sym, insert_perm.
  - now constructor.
Qed.

Lemma sort_ok (l : list A) : Forall ok l -> Forall ok (sort compareFn l).
Proof.
  intros Hl. eapply Permutation_Forall; [|exact Hl].
  apply Permutation_sym, sort_perm.
Qed.

Lemma insert_sorted (x : A) (l : list A) :
  ok x -> Forall ok l -> Sorted (ascending key) l ->
  Sorted (ascending key) (insert compareFn x l).
Proof.
  intros Hx Hl Hs. induction Hs as [|y l Hs IH Hhd]; cbn [insert].
  - repeat constructor.
  - inversion Hl as [|? ? Hy Hl']; subst.
    rewrite (compare_key x y Hx Hy).
    destruct (Z.ltb_spec (key y) (key x)) as [Hlt|Hge].
    + constructor; [now apply IH|].
      destruct l as [|z l]; cbn [insert].
      * constructor. unfold ascending. lia.
      * inversion Hl' as [|? ? Hz _]; subst.
        rewrite (compare_key x z Hx Hz).
        destruct (Z.ltb_spec (key z) (key x)).
        -- constructor. now inversion Hhd.
        -- constructor. unfold ascending. lia.
    + constructor; [now constructor|]. constructor. exact Hge.
Qed.

(** The sorted array is in ascending order of the keys. *)
Lemma sort_sorted (l : list A) :
  Forall ok l -> Sorted (ascending key) (sort compareFn l).
Proof.
  induction l as [|x l IH]; intros Hl; cbn [sort fold_right].
  - constructor.
  - inversion Hl; subst.
    apply insert_sorted; auto. now apply sort_ok.
Qed.

Lemma insert_same_key (k : Z) (x : A) (l : list A) :
  ok x -> Forall ok l ->
  filter (fun a => key a =? k) (insert compareFn x l)
  = filter (fun a => key a =? k) (x :: l).
Proof.
  intros Hx Hl. induction Hl as [|y l Hy Hl IH]; cbn [insert]; [reflexivity|].
  rewrite (compare_key x y Hx Hy).
  destruct (Z.ltb_spec (key y) (key x)) as [Hlt|Hge]; [|reflexivity].
  cbn [filter] in *. rewrite IH.
  destruct (Z.eqb_spec (key x) k), (Z.eqb_spec (key y) k);
    try reflexivity; lia.
Qed.

(** The sort is stable: the elements of a given key keep their order. *)
Lemma sort_stable (k : Z) (l : list A) :
  Forall ok l ->
  filter (fun a => key a =? k) (sort compareFn l)
  = filter (fun a => key a =? k) l.
Proof.
  induction l as [|x l IH]; intros Hl; cbn [sort fold_right];
    [reflexivity|].
  inversion Hl as [|? ? Hx Hl']; subst.
  fold (sort compareFn l).
  rewrite insert_same_key; [|exact Hx|now apply sort_ok].
  cbn [filter]. now rewrite IH.
Qed.

End SortByKey.

(** ** The output text is the rendering of the entries *)

Lemma renderAll_cons (e : Entry) (l : list Entry) :
  renderAll (e :: l) = render e ++ renderAll l.
Proof. reflexivity. Qed.

Ltac flatten_append :=
  repeat (rewrite append_assoc || rewrite append_empty_r);
  repeat change (append EmptyString ?x) with x.

Ltac unfold_render :=
  unfold render, timeLine;
  cbn [timelineEntry pairedEntry singleEntry timeRange index texts
       fst snd map joinAll fold_right].

Lemma timelineSRT_fold (l : list Merged) :
  forall acc i,
    fst (fold_left timelineSRTStep l (acc, i))
    = acc ++ renderAll (number_from i timelineEntry l).
Proof.
  induction l as [|m l IH]; intros acc i.
  - cbn. now rewrite append_empty_r.
  - cbn [fold_left number_from]. unfold timelineSRTStep at 2.
    cbn [fst snd]. rewrite IH, renderAll_cons. unfold_render.
    flatten_append. reflexivity.
Qed.

Lemma timelineSRT_renders (language1 language2 : string)
    (tickRate1 tickRate2 : number) (subtitles1 subtitles2 : list Cue) :
  timelineSRT language1 language2 tickRate1 tickRate2 subtitles1 subtitles2
  = renderAll (timelineEntries language1 language2 tickRate1 tickRate2
                 subtitles1 subtitles2).
Proof. unfold timelineSRT. now rewrite timelineSRT_fold. Qed.

Lemma secondText_lines (b : Best) :
  match bestMatch b with
  | Some subtitle2 => if accepted b then text subtitle2 ++ Str.nl else ""
  | None => ""
  end = joinAll (map (fun t => t ++ Str.nl) (secondText b)).
Proof.
  unfold secondText. destruct (bestMatch b); [|reflexivity].
  destruct (accepted b); cbn [map joinAll fold_right];
    [now rewrite append_empty_r | reflexivity].
Qed.

Lemma pairedSRT_fold (tickRate1 : number)
    (subtitles2 subtitles1 : list Cue) :
  forall acc i k,
    content
      (fold_left (pairedSRTStep tickRate1 subtitles2) subtitles1
         {| content := acc; nextIndex := i; j := k |})
    = acc ++ renderAll
               (number_from i (pairedEntry (Some tickRate1))
                  (pairedPass subtitles2 k subtitles1)).
Proof.
  induction subtitles1 as [|a l IH]; intros acc i k.
  - cbn. now rewrite append_empty_r.
  - cbn [fold_left pairedPass number_from]. unfold pairedSRTStep at 2.
    cbn [content nextIndex j]. rewrite IH, renderAll_cons, secondText_lines.
    unfold_render. cbn [primary best]. flatten_append. reflexivity.
Qed.

Lemma pairedSRT_renders (tickRate1 : number)
    (subtitles1 subtitles2 : list Cue) :
  pairedSRT tickRate1 subtitles1 subtitles2
  = renderAll (pairedEntries (Some tickRate1) subtitles1 subtitles2).
Proof. unfold pairedSRT. now rewrite pairedSRT_fold. Qed.

Lemma render_untimed_index (i i' : nat) (l : list Iteration) :
  renderAll (number_from i (pairedEntry None) l)
  = renderAll (number_from i' (pairedEntry None) l).
Proof.
  revert i i'. induction l as [|it l IH]; intros i i'; [reflexivity|].
  cbn [number_from]. rewrite !renderAll_cons, (IH (S i) (S i')).
  reflexivity.
Qed.

Lemma pairedTXT_fold (subtitles2 subtitles1 : list Cue) :
  forall acc i k,
    content
      (fold_left (pairedTXTStep subtitles2) subtitles1
         {| content := acc; nextIndex := i; j := k |})
    = acc ++ renderAll
               (number_from i (pairedEntry None)
                  (pairedPass subtitles2 k subtitles1)).
Proof.
  induction subtitles1 as [|a l IH]; intros acc i k.
  - cbn. now rewrite append_empty_r.
  - cbn [fold_left pairedPass number_from]. unfold pairedTXTStep at 2.
    cbn [content nextIndex j]. rewrite IH, renderAll_cons, secondText_lines.
    rewrite (render_untimed_index i (S i)).
    unfold_render. cbn [primary best]. flatten_append. reflexivity.
Qed.

Lemma pairedTXT_renders (subtitles1 subtitles2 : list Cue) :
  pairedTXT subtitles1 subtitles2
  = renderAll (pairedEntries None subtitles1 subtitles2).
Proof. unfold pairedTXT. now rewrite pairedTXT_fold. Qed.

(** ** Timeline mode: every cue, in the order of the tick counts *)

Lemma merged_cues (language1 language2 : string)
    (tickRate1 tickRate2 : number) (subtitles1 subtitles2 : list Cue) :
  map cue
    (mergedSubtitles language1 language2 tickRate1 tickRate2
       subtitles1 subtitles2)
  = (subtitles1 ++ subtitles2)%list.
Proof.
  unfold mergedSubtitles. rewrite map_app, !map_map. cbn [tagged cue].
  now rewrite !map_id.
Qed.

Lemma timelineOrder_perm (language1 language2 : string)
    (tickRate1 tickRate2 : number) (subtitles1 subtitles2 : list Cue) :
  Permutation
    (map cue
       (timelineOrder language1 language2 tickRate1 tickRate2
          subtitles1 subtitles2))
    (subtitles1 ++ subtitles2)%list.
Proof.
  unfold timelineOrder.
  rewrite <- (merged_cues language1 language2 tickRate1 tickRate2).
  apply Permutation_map, sort_perm.
Qed.

Lemma timeline_entries_length (language1 language2 : string)
    (tickRate1 tickRate2 : number) (subtitles1 subtitles2 : list Cue) :
  List.length
    (timelineEntries language1 language2 tickRate1 tickRate2
       subtitles1 subtitles2)
  = (List.length subtitles1 + List.length subtitles2)%nat.
Proof.
  unfold timelineEntries. rewrite number_from_length, <- length_app.
  rewrite <- (Permutation_length
                (timelineOrder_perm language1 language2 tickRate1 tickRate2
                   subtitles1 subtitles2)).
  now rewrite length_map.
Qed.

(** C4. The timeline output has one entry per input cue: [|A| + |B|]
    entries, numbered from 1, whose texts are, up to order, exactly the texts
    of the cues of both tracks, each cue counted once (none missing, none
    duplicated); the text written is the rendering of these entries. *)
Theorem timeline_keeps_every_cue (language1 language2 : string)
    (tickRate1 tickRate2 : number) (subtitles1 subtitles2 : list Cue) :
  let entries :=
    timelineEntries language1 language2 tickRate1 tickRate2
      subtitles1 subtitles2 in
  timelineSRT language1 language2 tickRate1 tickRate2 subtitles1 subtitles2
  = renderAll entries /\
  List.length entries
  = (List.length subtitles1 + List.length subtitles2)%nat /\
  map index entries
  = seq 1 (List.length subtitles1 + List.length subtitles2) /\
  Permutation (map texts entries)
    (map (fun sub => [text sub]) (subtitles1 ++ subtitles2)%list).
Proof.
  intros entries. subst entries.
  pose proof (timeline_entries_length language1 language2 tickRate1 tickRate2
                subtitles1 subtitles2) as Hlen.
  unfold timelineEntries in *. rewrite number_from_length in Hlen.
  split; [apply timelineSRT_renders|].
  split; [now rewrite number_from_length|].
  split.
  - rewrite number_from_index by reflexivity. now rewrite Hlen.
  - rewrite (number_from_map texts timelineEntry
               (fun m => [text (cue m)])) by reflexivity.
    rewrite <- (map_map cue (fun sub => [text sub])).
    apply Permutation_map, timelineOrder_perm.
Qed.

Lemma byStartTime_ticks (a b : Merged) :
  isTicks (startTime a) -> isTicks (startTime b) ->
  comesAfter byStartTime a b
  = (ticksOf (startTime b) <? ticksOf (startTime a)).
Proof.
  unfold comesAfter, byStartTime, isTicks. intros -> ->.
  rewrite sub_of_Z, ltb_of_Z, !ticksOf_of_Z.
  destruct (Z.ltb_spec 0 (ticksOf (startTime a) - ticksOf (startTime b))),
    (Z.ltb_spec (ticksOf (startTime b)) (ticksOf (startTime a)));
    try reflexivity; lia.
Qed.

Lemma filter_tagged (language : string) (rate : number) (k : Z)
    (l : list Cue) :
  filter (fun m => ticksOf (startTime m) =? k) (map (tagged language rate) l)
  = map (tagged language rate)
      (filter (fun sub => ticksOf (startTimeOf sub) =? k) l).
Proof.
  induction l as [|c l IH]; cbn [map filter tagged startTime];
    [reflexivity|].
  rewrite IH. now destruct (ticksOf (startTimeOf c) =? k).
Qed.

(** What the timeline mode does establish: when the start of every cue is a
    tick count, the merged array ends up in ascending order of the tick
    counts, and the cues of a given tick count are those of the first file,
    in their order, followed by those of the second file, in theirs. *)
Theorem timeline_sorted_by_ticks (language1 language2 : string)
    (tickRate1 tickRate2 : number) (subtitles1 subtitles2 : list Cue) :
  Forall (fun sub => isTicks (startTimeOf sub)) subtitles1 ->
  Forall (fun sub => isTicks (startTimeOf sub)) subtitles2 ->
  let sorted :=
    timelineOrder language1 language2 tickRate1 tickRate2
      subtitles1 subtitles2 in
  Sorted (ascending (fun m => ticksOf (startTime m))) sorted /\
  forall k,
    filter (fun m => ticksOf (startTime m) =? k) sorted
    = (map (tagged language1 tickRate1)
         (filter (fun sub => ticksOf (startTimeOf sub) =? k) subtitles1)
       ++ map (tagged language2 tickRate2)
            (filter (fun sub => ticksOf (startTimeOf sub) =? k)
               subtitles2))%list.
Proof.
  intros H1 H2 sorted. subst sorted. unfold timelineOrder.
  assert (Hok : Forall (fun m => isTicks (startTime m))
                  (mergedSubtitles language1 language2 tickRate1 tickRate2
                     subtitles1 subtitles2)).
  { unfold mergedSubtitles. apply Forall_app.
    split; apply Forall_map; cbn [tagged startTime]; assumption. }
  split.
  - apply (sort_sorted byStartTime (fun m => ticksOf (startTime m))
             (fun m => isTicks (startTime m)) byStartTime_ticks _ Hok).
  - intros k.
    rewrite (sort_stable byStartTime (fun m => ticksOf (startTime m))
               (fun m => isTicks (startTime m)) byStartTime_ticks k _ Hok).
    unfold mergedSubtitles. now rewrite filter_app, !filter_tagged.
Qed.

(** X6. For the cues of any two documents whose begin ticks are safe
    integers, the array the timeline mode prints is in ascending order of
    the begin ticks, and the cues of a given tick count are those of the
    first file, in the order of the document, followed by those of the
    second file. *)
Corollary timeline_of_documents_sorted_by_ticks
    (xmlData1 xmlData2 language1 language2 : string) :
  safeTicks (extractSubtitlesWithRegex xmlData1 language1) = true ->
  safeTicks (extractSubtitlesWithRegex xmlData2 language2) = true ->
  let subtitles1 := extractSubtitlesWithRegex xmlData1 language1 in
  let subtitles2 := extractSubtitlesWithRegex xmlData2 language2 in
  let sorted :=
    timelineOrder language1 language2
      (extractTickRate xmlData1) (extractTickRate xmlData2)
      subtitles1 subtitles2 in
  Sorted (ascending (fun m => ticksOf (startTime m))) sorted /\
  forall k,
    filter (fun m => ticksOf (startTime m) =? k) sorted
    = (map (tagged language1 (extractTickRate xmlData1))
         (filter (fun sub => ticksOf (startTimeOf sub) =? k) subtitles1)
       ++ map (tagged language2 (extractTickRate xmlData2))
            (filter (fun sub => ticksOf (startTimeOf sub) =? k)
               subtitles2))%list.
Proof.
  intros _ _.
  apply timeline_sorted_by_ticks;
    (eapply Forall_impl; [|apply extracted_cues_are_ticks]);
    intros sub H; apply H.
Qed.

(** X6, a witness: a Korean document with a cue at 10000000 ticks and a
    Chinese document with cues at 4000000 and 13000000 ticks. *)
Lemma timeline_of_documents_sorted_by_ticks_witness :
  safeTicks (extractSubtitlesWithRegex Sample.oneSecondKr "kr") = true /\
  safeTicks (extractSubtitlesWithRegex Sample.tenMillionCh "ch") = true /\
  let subtitles1 := extractSubtitlesWithRegex Sample.oneSecondKr "kr" in
  let subtitles2 := extractSubtitlesWithRegex Sample.tenMillionCh "ch" in
  let sorted :=
    timelineOrder "kr" "ch"
      (extractTickRate Sample.oneSecondKr)
      (extractTickRate Sample.tenMillionCh)
      subtitles1 subtitles2 in
  Sorted (ascending (fun m => ticksOf (startTime m))) sorted /\
  forall k,
    filter (fun m => ticksOf (startTime m) =? k) sorted
    = (map (tagged "kr" (extractTickRate Sample.oneSecondKr))
         (filter (fun sub => ticksOf (startTimeOf sub) =? k) subtitles1)
       ++ map (tagged "ch" (extractTickRate Sample.tenMillionCh))
            (filter (fun sub => ticksOf (startTimeOf sub) =? k)
               subtitles2))%list.
Proof.
  split; [vm_compute; reflexivity|].
  split; [vm_compute; reflexivity|].
  apply (timeline_of_documents_sorted_by_ticks
           Sample.oneSecondKr Sample.tenMillionCh "kr" "ch");
    vm_compute; reflexivity.
Defined.

(** C1, evaluated where the claim fails.  The first file has 10000000 ticks
    per second and one cue at 1.0 s; the second has 2700000 ticks per second.
    When its cue is at 2.0 s (5400000 ticks) the timeline puts it first,
    before the cue at 1.0 s; when its cue is at 1.0 s (2700000 ticks), the
    same instant, it is put first as well, not second. *)
Theorem timeline_compares_ticks_across_rates :
  let A := extractSubtitlesWithRegex Sample.oneSecondKr "kr" in
  let later := extractSubtitlesWithRegex Sample.twoSecondsCh "ch" in
  let same := extractSubtitlesWithRegex Sample.oneSecondCh "ch" in
  let r1 := extractTickRate Sample.oneSecondKr in
  let r2 := extractTickRate Sample.twoSecondsCh in
  let seconds (m : Merged) := startSeconds (tickRate m) (cue m) in
  (r1 = of_Z 10000000 /\ r2 = of_Z 2700000) /\
  map seconds (timelineOrder "kr" "ch" r1 r2 A later) = [of_Z 2; of_Z 1] /\
  Sample.combineSRT "timeline" Sample.oneSecondKr Sample.twoSecondsCh
  = Some (Sample.lines
            ["1"; "00:00:02,000 --> 00:00:03,000"; "b1"; "";
             "2"; "00:00:01,000 --> 00:00:02,000"; "a1"; ""]) /\
  map seconds (timelineOrder "kr" "ch" r1 r2 A same) = [of_Z 1; of_Z 1] /\
  map language (timelineOrder "kr" "ch" r1 r2 A same) = ["ch"; "kr"] /\
  Sample.combineSRT "timeline" Sample.oneSecondKr Sample.oneSecondCh
  = Some (Sample.lines
            ["1"; "00:00:01,000 --> 00:00:02,000"; "b1"; "";
             "2"; "00:00:01,000 --> 00:00:02,000"; "a1"; ""]).
Proof. cbv zeta. repeat split; vm_compute; reflexivity. Qed.

(** ** Paired mode: the search of one iteration *)

Lemma range_spec (lo hi k : Z) :
  In k (range lo hi) <-> lo <= k < hi.
Proof.
  unfold range. rewrite in_map_iff. split.
  - intros [i [<- Hi]]. apply in_seq in Hi. lia.
  - intros H. exists (Z.to_nat (k - lo)). split; [lia|].
    apply in_seq. lia.
Qed.

(** Every index of the window designates a cue of [subtitles2]: the
    access [subtitles2[k]] of the inner loop never leaves the array. *)
Lemma range_window_lookup (subtitles2 : list Cue) (j k : Z) :
  In k (range (startJ j) (endJ subtitles2 j)) ->
  exists subtitle2, nth_error subtitles2 (Z.to_nat k) = Some subtitle2.
Proof.
  rewrite range_spec. unfold startJ, endJ. intros H.
  destruct (nth_error subtitles2 (Z.to_nat k)) as [c|] eqn:E.
  - now exists c.
  - apply nth_error_None in E. lia.
Qed.

Lemma inspect_found (startTime1 : number) (subtitles2 : list Cue)
    (ks : list Z) :
  forall (seen : list Z) (b : Best),
    found_in startTime1 subtitles2 seen b ->
    found_in startTime1 subtitles2 (seen ++ ks)%list
      (fold_left (inspect startTime1 subtitles2) ks b).
Proof.
  induction ks as [|k ks IH]; intros seen b Hb; cbn [fold_left].
  - now rewrite app_nil_r.
  - replace (seen ++ k :: ks)%list with ((seen ++ [k]) ++ ks)%list
      by now rewrite <- app_assoc.
    apply IH. unfold inspect.
    destruct (nth_error subtitles2 (Z.to_nat k)) as [c|] eqn:Ek.
    + destruct (ltb _ (minTimeDiff b)).
      * right. exists c. cbn. repeat split; auto.
        apply in_or_app. right. now left.
      * destruct Hb as [->|[c' [Hin H]]]; [now left|].
        right. exists c'. split; [apply in_or_app; now left | exact H].
    + destruct Hb as [->|[c' [Hin H]]]; [now left|].
      right. exists c'. split; [apply in_or_app; now left | exact H].
Qed.

Lemma findBest_found (subtitles2 : list Cue) (j : Z) (subtitle1 : Cue) :
  found_in (startTimeOf subtitle1) subtitles2
    (range (startJ j) (endJ subtitles2 j))
    (findBest subtitles2 j subtitle1).
Proof.
  unfold findBest.
  apply (inspect_found _ _ _ [] noBest). now left.
Qed.

(** An accepted match lies in the window, is the cue at its index, and its
    tick difference is below the threshold of 10000000. *)
Lemma accepted_match (subtitles2 : list Cue) (j : Z) (subtitle1 : Cue) :
  accepted (findBest subtitles2 j subtitle1) = true ->
  exists subtitle2,
    startJ j <= bestMatchIndex (findBest subtitles2 j subtitle1)
      < endJ subtitles2 j /\
    nth_error subtitles2
      (Z.to_nat (bestMatchIndex (findBest subtitles2 j subtitle1)))
      = Some subtitle2 /\
    bestMatch (findBest subtitles2 j subtitle1) = Some subtitle2 /\
    ltb (Num.abs (sub (startTimeOf subtitle1) (startTimeOf subtitle2)))
        (of_Z 10000000) = true.
Proof.
  intros Hacc.
  destruct (findBest_found subtitles2 j subtitle1)
    as [E|[c [Hin [Hn [Hb Hd]]]]].
  - rewrite E in Hacc. discriminate.
  - exists c. apply range_spec in Hin. repeat split; try tauto.
    unfold accepted in Hacc. rewrite Hb, Hd in Hacc. exact Hacc.
Qed.

Lemma range_snoc (lo : Z) (n : nat) :
  range lo (lo + Z.of_nat (S n))
  = (range lo (lo + Z.of_nat n) ++ [lo + Z.of_nat n])%list.
Proof.
  unfold range.
  replace (Z.to_nat (lo + Z.of_nat (S n) - lo)) with (S n) by lia.
  replace (Z.to_nat (lo + Z.of_nat n - lo)) with n by lia.
  rewrite seq_S, map_app. reflexivity.
Qed.

Section Nearest.

Variables (subtitles2 : list Cue) (t1 lo : Z).

Hypothesis ticks2 : Forall (fun sub => isTicks (startTimeOf sub)) subtitles2.

Lemma searched_nearest (n : nat) :
  0 <= lo -> lo + Z.of_nat n <= Z.of_nat (List.length subtitles2) ->
  let b := searchedUpTo subtitles2 t1 lo n in
  bestMatchIndex b < lo + Z.of_nat n /\
  minTimeDiff b = of_Z (ticksOf (minTimeDiff b)) /\
  (bestMatch b = None -> ticksOf (minTimeDiff b) = 2 ^ 53 - 1) /\
  (forall k, lo <= k < lo + Z.of_nat n ->
     ticksOf (minTimeDiff b) <= tickDistance subtitles2 t1 k /\
     (k < bestMatchIndex b ->
      ticksOf (minTimeDiff b) < tickDistance subtitles2 t1 k)).
Proof.
  intros Hlo. induction n as [|n IH]; intros Hhi; cbv zeta in *.
  - unfold searchedUpTo, range.
    replace (Z.to_nat (lo + Z.of_nat 0 - lo)) with 0%nat by lia.
    cbn [seq map fold_left noBest bestMatchIndex minTimeDiff bestMatch].
    unfold MAX_SAFE_INTEGER. rewrite ticksOf_of_Z.
    repeat split; try lia; reflexivity.
  - destruct IH as [Hidx [Hmin [Hnone Hall]]]; [lia|].
    unfold searchedUpTo in *. rewrite range_snoc, fold_left_app.
    cbn [fold_left]. set (b := fold_left _ _ noBest) in *.
    assert (Hd : tickDistance subtitles2 t1 (lo + Z.of_nat n)
                 = tickDistance subtitles2 t1 (lo + Z.of_nat n))
      by reflexivity.
    unfold tickDistance at 1 in Hd. unfold inspect.
    destruct (nth_error subtitles2 (Z.to_nat (lo + Z.of_nat n)))
      as [c|] eqn:Ec.
    2:{ apply nth_error_None in Ec. lia. }
    assert (Hc : isTicks (startTimeOf c)).
    { rewrite Forall_forall in ticks2. eapply ticks2, nth_error_In, Ec. }
    rewrite Hc, sub_of_Z, abs_of_Z, Hmin, ltb_of_Z, Hd.
    destruct (Z.ltb_spec (tickDistance subtitles2 t1 (lo + Z.of_nat n))
                (ticksOf (minTimeDiff b))) as [Hlt|Hge].
    + cbn [bestMatchIndex minTimeDiff bestMatch]. rewrite ticksOf_of_Z.
      repeat split; try lia; try discriminate.
      * destruct (Z.eq_dec k (lo + Z.of_nat n)) as [->|Hk]; [lia|].
        specialize (Hall k ltac:(lia)). lia.
      * destruct (Z.eq_dec k (lo + Z.of_nat n)) as [->|Hk]; [lia|].
        specialize (Hall k ltac:(lia)). lia.
    + repeat split; try lia; auto.
      * destruct (Z.eq_dec k (lo + Z.of_nat n)) as [->|Hk]; [lia|].
        specialize (Hall k ltac:(lia)). lia.
      * intros Hk'. specialize (Hall k ltac:(lia)). lia.
Qed.

End Nearest.

(** The search of an iteration, on tick counts: no cue of the window is
    nearer in ticks than the selected one, the cues before it in the window
    are strictly farther, and nothing is selected only if every cue of the
    window is [2^53 - 1] ticks away or more. *)
Theorem findBest_nearest (subtitles2 : list Cue) (j : Z) (subtitle1 : Cue) :
  Forall (fun sub => isTicks (startTimeOf sub)) subtitles2 ->
  isTicks (startTimeOf subtitle1) ->
  0 <= j <= Z.of_nat (List.length subtitles2) ->
  let b := findBest subtitles2 j subtitle1 in
  forall k sub,
    startJ j <= k < endJ subtitles2 j ->
    nth_error subtitles2 (Z.to_nat k) = Some sub ->
    let d := Z.abs (ticksOf (startTimeOf subtitle1)
                    - ticksOf (startTimeOf sub)) in
    ticksOf (minTimeDiff b) <= d /\
    (k < bestMatchIndex b -> ticksOf (minTimeDiff b) < d) /\
    (bestMatch b = None -> 2 ^ 53 - 1 <= d).
Proof.
  intros H2 H1 Hj b k c Hk Hc d. subst b d. unfold findBest.
  unfold isTicks in H1.
  remember (ticksOf (startTimeOf subtitle1)) as t1 eqn:Et1.
  rewrite H1. clear H1 Et1.
  assert (Hn : endJ subtitles2 j
               = startJ j
                 + Z.of_nat (Z.to_nat (endJ subtitles2 j - startJ j))).
  { unfold endJ, startJ, searchWindow. lia. }
  rewrite Hn in Hk |- *.
  destruct (searched_nearest subtitles2
              t1 (startJ j) H2
              (Z.to_nat (endJ subtitles2 j - startJ j)))
    as [_ [_ [Hnone Hall]]].
  - unfold startJ. lia.
  - rewrite <- Hn. unfold endJ. lia.
  - specialize (Hall k Hk). unfold tickDistance in Hall.
    rewrite Hc in Hall. fold (searchedUpTo subtitles2 t1 (startJ j)
      (Z.to_nat (endJ subtitles2 j - startJ j))).
    split; [tauto|]. split; [tauto|].
    intros E. specialize (Hnone E). lia.
Qed.

(** C6, evaluated where the claim fails.  The primary cue starts at 1.0 s
    (10000000 ticks at 10000000 per second); the window holds the secondary
    cues at 1.0 s and at 3.0 s (2700000 and 8100000 ticks at 2700000 per
    second).  The search selects index 1, the cue 2 s away whose tick count
    is the nearer one, not index 0, the cue at the same instant. *)
Theorem paired_nearest_is_in_ticks :
  let A := extractSubtitlesWithRegex Sample.oneSecondKr "kr" in
  let B := extractSubtitlesWithRegex Sample.oneAndThreeSecondsCh "ch" in
  let r1 := extractTickRate Sample.oneSecondKr in
  let r2 := extractTickRate Sample.oneAndThreeSecondsCh in
  (r1 = of_Z 10000000 /\ r2 = of_Z 2700000) /\
  range (startJ 0) (endJ (sort byBegin B) 0) = [0; 1] /\
  map (fun a => map (gapSeconds r1 r2 a) (sort byBegin B))
      (sort byBegin A) = [[of_Z 0; of_Z 2]] /\
  map (fun a => bestMatchIndex (findBest (sort byBegin B) 0 a))
      (sort byBegin A) = [1] /\
  pairedMatches (sort byBegin A) (sort byBegin B) = [(0%nat, 1)] /\
  Sample.combineSRT "paired" Sample.oneSecondKr Sample.oneAndThreeSecondsCh
  = Some (Sample.lines ["1"; "00:00:01,000 --> 00:00:02,000"; "a1"; "b2"; ""]).
Proof. cbv zeta. repeat split; vm_compute; reflexivity. Qed.

(** C2, evaluated where the claim fails.  Both files have 1000 ticks per
    second; the primary cue starts at 0 s and the secondary cue at 5 s.  The
    difference of 5000 ticks is below 10000000, so the two are paired, 5
    seconds apart. *)
Theorem paired_threshold_is_in_ticks :
  let A := extractSubtitlesWithRegex Sample.millisKr "kr" in
  let B := extractSubtitlesWithRegex Sample.millisCh "ch" in
  let r1 := extractTickRate Sample.millisKr in
  let r2 := extractTickRate Sample.millisCh in
  (r1 = of_Z 1000 /\ r2 = of_Z 1000) /\
  pairedMatches (sort byBegin A) (sort byBegin B) = [(0%nat, 0)] /\
  map (fun a => map (gapSeconds r1 r2 a) B) A = [[of_Z 5]] /\
  ltb (of_Z 5) (of_Z 1) = false /\
  Sample.combineSRT "paired" Sample.millisKr Sample.millisCh
  = Some (Sample.lines ["1"; "00:00:00,000 --> 00:00:02,000"; "a1"; "b1"; ""]).
Proof. cbv zeta. repeat split; vm_compute; reflexivity. Qed.

(** ** Paired mode: the entries *)

Lemma pairedPass_primary (subtitles2 subtitles1 : list Cue) :
  forall j, map primary (pairedPass subtitles2 j subtitles1) = subtitles1.
Proof.
  induction subtitles1 as [|a l IH]; intros k; cbn [pairedPass map primary].
  - reflexivity.
  - now rewrite IH.
Qed.

Lemma pairedPass_length (subtitles2 subtitles1 : list Cue) (j : Z) :
  List.length (pairedPass subtitles2 j subtitles1) = List.length subtitles1.
Proof.
  rewrite <- (length_map primary). now rewrite pairedPass_primary.
Qed.

(** A relation between a primary cue and its entry holds along the whole
    pass as soon as it holds for every cursor position. *)
Lemma pairedEntries_Forall2 (R : Cue -> Entry -> Prop)
    (tickRate1 : option number) (subtitles2 : list Cue) :
  (forall i j subtitle1,
      R subtitle1
        (pairedEntry tickRate1 i
           {| cursor := j; primary := subtitle1;
              best := findBest subtitles2 j subtitle1 |})) ->
  forall subtitles1 i j,
    Forall2 R subtitles1
      (number_from i (pairedEntry tickRate1)
         (pairedPass subtitles2 j subtitles1)).
Proof.
  intros HR. induction subtitles1 as [|a l IH]; intros i k;
    cbn [pairedPass number_from]; constructor; auto.
Qed.

(** The entries of the paired pass.  It emits exactly one entry per cue of
    the primary sequence, in its order and numbered from 1; the entry of a
    cue carries that cue's time range and text, and a second text only if
    it is the text of a cue of the secondary sequence for which the test of
    the code, [Math.abs(startTime1 - startTime2) < 10000000] on the tick
    counts, holds; the number of entries is [|A|] whatever the secondary
    sequence, the empty one included. *)
Theorem paired_one_entry_per_primary_cue (tickRate1 : number)
    (subtitles1 subtitles2 : list Cue) :
  let entries := pairedEntries (Some tickRate1) subtitles1 subtitles2 in
  pairedSRT tickRate1 subtitles1 subtitles2 = renderAll entries /\
  List.length entries = List.length subtitles1 /\
  List.length (pairedEntries (Some tickRate1) subtitles1 [])
  = List.length subtitles1 /\
  map index entries = seq 1 (List.length subtitles1) /\
  Forall2
    (fun a e =>
       timeRange e = Some (convertTimeToSRT (begin a) tickRate1,
                           convertTimeToSRT (end_ a) tickRate1) /\
       (texts e = [text a] \/
        exists b,
          In b subtitles2 /\
          texts e = [text a; text b] /\
          ltb (Num.abs (sub (startTimeOf a) (startTimeOf b)))
              (of_Z 10000000) = true))
    subtitles1 entries.
Proof.
  intros entries. subst entries. unfold pairedEntries.
  split; [apply pairedSRT_renders|].
  split; [now rewrite number_from_length, pairedPass_length|].
  split; [now rewrite number_from_length, pairedPass_length|].
  split.
  { rewrite number_from_index by reflexivity.
    now rewrite pairedPass_length. }
  apply pairedEntries_Forall2. intros i k a.
  cbn [pairedEntry timeRange texts primary best]. split; [reflexivity|].
  unfold secondText.
  destruct (accepted (findBest subtitles2 k a)) eqn:Hacc.
  - destruct (accepted_match _ _ _ Hacc) as [c [_ [Hn [Hb Hd]]]].
    right. exists c. rewrite Hb.
    repeat split; auto. eapply nth_error_In, Hn.
  - left. now destruct (bestMatch (findBest subtitles2 k a)).
Qed.

(** C5, evaluated where the claim fails.  There is one entry per primary
    cue, with its time range and text, but the second text does not depend
    on a match within one second.  With one tick per second in both files,
    the primary cue starts at 0 s and the secondary cue one hour later: the
    difference of 3600 ticks is below 10000000 and the text of the
    secondary cue is appended.  With 20000000 ticks per second in both
    files, the secondary cue starts 0.75 s after the primary cue: the
    difference of 15000000 ticks is not below 10000000 and the primary text
    is printed alone. *)
Theorem paired_second_text_ignores_tick_rate :
  let gaps xml1 xml2 :=
    map (fun a =>
           map (gapSeconds (extractTickRate xml1) (extractTickRate xml2) a)
             (sortedCues xml2 "ch"))
      (sortedCues xml1 "kr") in
  let matches xml1 xml2 :=
    pairedMatches (sortedCues xml1 "kr") (sortedCues xml2 "ch") in
  ((extractTickRate Sample.hourKr = of_Z 1 /\
    extractTickRate Sample.hourCh = of_Z 1) /\
   gaps Sample.hourKr Sample.hourCh = [[of_Z 3600]] /\
   ltb (of_Z 3600) (of_Z 1) = false /\
   matches Sample.hourKr Sample.hourCh = [(0%nat, 0)] /\
   Sample.combineSRT "paired" Sample.hourKr Sample.hourCh
   = Some (Sample.lines
             ["1"; "00:00:00,000 --> 00:00:02,000"; "a1"; "b1"; ""])) /\
  ((extractTickRate Sample.fastKr = of_Z 20000000 /\
    extractTickRate Sample.fastCh = of_Z 20000000) /\
   gaps Sample.fastKr Sample.fastCh = [[Finite (3 # 4)]] /\
   ltb (Finite (3 # 4)) (of_Z 1) = true /\
   matches Sample.fastKr Sample.fastCh = [] /\
   Sample.combineSRT "paired" Sample.fastKr Sample.fastCh
   = Some (Sample.lines ["1"; "00:00:00,000 --> 00:00:01,000"; "a1"; ""])).
Proof. cbv zeta. repeat split; vm_compute; reflexivity. Qed.

Lemma window_empty (j : Z) : range (startJ j) (endJ [] j) = [].
Proof.
  unfold range, endJ, startJ, searchWindow. cbn [List.length].
  replace (Z.to_nat (Z.min (Z.of_nat 0) (Z.max 0 (j - 2) + 10)
                     - Z.max 0 (j - 2))) with 0%nat by lia.
  reflexivity.
Qed.

Lemma findBest_empty (j : Z) (subtitle1 : Cue) :
  findBest [] j subtitle1 = noBest.
Proof. unfold findBest. now rewrite window_empty. Qed.

(** C7. With an empty secondary sequence the inner loop inspects no index
    and every entry carries the text of its primary cue alone, in the SRT
    and in the TXT output; with an empty primary sequence there is no entry
    and the output text is empty. *)
Theorem paired_empty_tracks (tickRate1 : number) (subtitles : list Cue) :
  (forall j, range (startJ j) (endJ [] j) = []) /\
  Forall2 (fun a e => texts e = [text a]) subtitles
    (pairedEntries (Some tickRate1) subtitles []) /\
  pairedSRT tickRate1 subtitles []
  = renderAll (number_from 1 (singleEntry (Some tickRate1)) subtitles) /\
  pairedTXT subtitles []
  = renderAll (number_from 1 (singleEntry None) subtitles) /\
  pairedEntries (Some tickRate1) [] subtitles = [] /\
  pairedSRT tickRate1 [] subtitles = "" /\
  pairedTXT [] subtitles = "".
Proof.
  assert (Hentries : forall r l i j,
    number_from i (pairedEntry r) (pairedPass [] j l)
    = number_from i (singleEntry r) l).
  { intros r l. induction l as [|a l IH]; intros i k;
      cbn [pairedPass number_from]; [reflexivity|].
    rewrite findBest_empty. unfold advance.
    cbn [accepted noBest bestMatch]. rewrite IH. reflexivity. }
  split; [exact window_empty|].
  split.
  { unfold pairedEntries. apply pairedEntries_Forall2. intros i k a.
    now rewrite findBest_empty. }
  split.
  { rewrite pairedSRT_renders. unfold pairedEntries. now rewrite Hentries. }
  split.
  { rewrite pairedTXT_renders. unfold pairedEntries. now rewrite Hentries. }
  repeat split.
Qed.

(** ** Paired mode: the cursor along the pass *)

(** One iteration moves the cursor back by at most one position, and only
    to the position after the match it accepts. *)
Lemma advance_bounds (subtitles2 : list Cue) (j : Z) (subtitle1 : Cue) :
  0 <= j <= Z.of_nat (List.length subtitles2) ->
  let b := findBest subtitles2 j subtitle1 in
  (j - 1 <= advance j b /\
   0 <= advance j b <= Z.of_nat (List.length subtitles2)) /\
  (accepted b = true ->
   Z.max 0 (j - 2) <= bestMatchIndex b < Z.of_nat (List.length subtitles2) /\
   advance j b = bestMatchIndex b + 1) /\
  (accepted b = false -> advance j b = j).
Proof.
  intros Hj b. unfold advance.
  destruct (accepted b) eqn:Hacc.
  - destruct (accepted_match _ _ _ Hacc) as [c [Hk _]].
    fold b in Hk. unfold startJ, endJ, searchWindow in Hk.
    repeat split; intros; try discriminate; lia.
  - repeat split; intros; try discriminate; lia.
Qed.

Lemma pairedPass_consecutive (subtitles2 : list Cue)
    (before : list Iteration) :
  forall (subtitles1 : list Cue) (j : Z) (it next : Iteration)
         (after : list Iteration),
    0 <= j <= Z.of_nat (List.length subtitles2) ->
    pairedPass subtitles2 j subtitles1
    = (before ++ it :: next :: after)%list ->
    0 <= cursor it <= Z.of_nat (List.length subtitles2) /\
    best it = findBest subtitles2 (cursor it) (primary it) /\
    cursor next = advance (cursor it) (best it).
Proof.
  induction before as [|x before IH]; intros l k it next after Hk Hpass.
  - destruct l as [|a [|a' l]]; cbn [pairedPass app] in Hpass;
      try discriminate.
    injection Hpass as <- <- _. cbn [cursor primary best]. auto.
  - destruct l as [|a l]; cbn [pairedPass app] in Hpass; [discriminate|].
    injection Hpass as _ Hpass.
    apply (IH _ _ _ _ _ (proj2 (proj1 (advance_bounds subtitles2 k a Hk)))
             Hpass).
Qed.

(** Every iteration of the pass runs the search of its cue with a cursor
    inside the secondary sequence. *)
Lemma pairedPass_invariant (subtitles2 subtitles1 : list Cue) :
  forall j,
    0 <= j <= Z.of_nat (List.length subtitles2) ->
    Forall
      (fun it =>
         0 <= cursor it <= Z.of_nat (List.length subtitles2) /\
         In (primary it) subtitles1 /\
         best it = findBest subtitles2 (cursor it) (primary it))
      (pairedPass subtitles2 j subtitles1).
Proof.
  induction subtitles1 as [|a l IH]; intros k Hk; cbn [pairedPass];
    constructor.
  - cbn [cursor primary best]. repeat split; try lia. now left.
  - eapply Forall_impl; [|apply IH, (advance_bounds subtitles2 k a Hk)].
    intros it [H1 [H2 H3]]. repeat split; try tauto. now right.
Qed.

(** Along the whole pass, on cues that start at tick counts, the search
    selects the earliest of the cues of its window that are nearest in
    ticks. *)
Theorem paired_selects_nearest_ticks (subtitles1 subtitles2 : list Cue) :
  Forall (fun sub => isTicks (startTimeOf sub)) subtitles1 ->
  Forall (fun sub => isTicks (startTimeOf sub)) subtitles2 ->
  Forall
    (fun it =>
       forall k sub,
         startJ (cursor it) <= k < endJ subtitles2 (cursor it) ->
         nth_error subtitles2 (Z.to_nat k) = Some sub ->
         let d := Z.abs (ticksOf (startTimeOf (primary it))
                         - ticksOf (startTimeOf sub)) in
         ticksOf (minTimeDiff (best it)) <= d /\
         (k < bestMatchIndex (best it) ->
          ticksOf (minTimeDiff (best it)) < d) /\
         (bestMatch (best it) = None -> 2 ^ 53 - 1 <= d))
    (pairedPass subtitles2 0 subtitles1).
Proof.
  intros H1 H2.
  eapply Forall_impl;
    [|apply (pairedPass_invariant subtitles2 subtitles1 0); lia].
  intros it [Hj [Hin Hb]] k c Hk Hc. rewrite Hb.
  apply findBest_nearest; auto.
  rewrite Forall_forall in H1. now apply H1.
Qed.

(** C3, as amended.  Between two consecutive iterations of the pass the
    cursor moves back by at most one position, hence by less than the
    backtrack of 2, and stays within the secondary sequence; it changes only
    when a match is accepted, to the position after the matched index, which
    is at least [max(0, j - 2)].  Nothing prevents the next iteration from
    accepting the same index again. *)
Theorem paired_cursor_backtrack_bounded (subtitles1 subtitles2 : list Cue)
    (before : list Iteration) (it next : Iteration)
    (after : list Iteration) :
  pairedPass subtitles2 0 subtitles1
  = (before ++ it :: next :: after)%list ->
  0 <= cursor it /\
  cursor it - 1 <= cursor next <= Z.of_nat (List.length subtitles2) /\
  (accepted (best it) = true ->
   Z.max 0 (cursor it - 2) <= bestMatchIndex (best it)
     < Z.of_nat (List.length subtitles2) /\
   cursor next = bestMatchIndex (best it) + 1) /\
  (accepted (best it) = false -> cursor next = cursor it).
Proof.
  intros Hpass.
  destruct (pairedPass_consecutive subtitles2 before subtitles1 0 it next
              after ltac:(lia) Hpass) as [Hj [Hb Hn]].
  pose proof (advance_bounds subtitles2 (cursor it) (primary it) Hj) as H.
  cbv zeta in H. rewrite <- Hb, <- Hn in H.
  destruct H as [[H1 H2] [H3 H4]]. repeat split; try tauto; lia.
Qed.

(** C3, a witness: the pass over two quick primary cues and one secondary
    cue has two consecutive iterations, with cursors 0 and 1. *)
Lemma paired_cursor_backtrack_bounded_witness :
  pairedPass Sample.slowB 0 Sample.quickA
  = ([] ++ Sample.quickFirst :: Sample.quickSecond :: [])%list /\
  (0 <= cursor Sample.quickFirst /\
   cursor Sample.quickFirst - 1 <= cursor Sample.quickSecond
     <= Z.of_nat (List.length Sample.slowB) /\
   (accepted (best Sample.quickFirst) = true ->
    Z.max 0 (cursor Sample.quickFirst - 2)
      <= bestMatchIndex (best Sample.quickFirst)
      < Z.of_nat (List.length Sample.slowB) /\
    cursor Sample.quickSecond = bestMatchIndex (best Sample.quickFirst) + 1) /\
   (accepted (best Sample.quickFirst) = false ->
    cursor Sample.quickSecond = cursor Sample.quickFirst)).
Proof.
  split.
  - vm_compute. reflexivity.
  - apply (paired_cursor_backtrack_bounded Sample.quickA Sample.slowB
             [] Sample.quickFirst Sample.quickSecond []).
    vm_compute. reflexivity.
Defined.

(** C3, the counterexample: the two primary cues are both matched to the
    only secondary cue, index 0, so a secondary index can be matched to more
    than one primary cue. *)
Lemma paired_rematches_same_cue :
  pairedMatches Sample.quickA Sample.slowB = [(0%nat, 0); (1%nat, 0)] /\
  ~ NoDup (map snd (pairedMatches Sample.quickA Sample.slowB)) /\
  pairedTXT Sample.quickA Sample.slowB
  = Sample.lines ["a1"; "b1"; ""; "a2"; "b1"; ""].
Proof.
  split; [vm_compute; reflexivity|]. split; [|vm_compute; reflexivity].
  replace (map snd (pairedMatches Sample.quickA Sample.slowB))
    with [0; 0] by (vm_compute; reflexivity).
  intros H. inversion H as [|x l Hin _]. apply Hin. now left.
Qed.

(** ** Time codes never fail *)

Lemma timeCode_NaN : timeCode NaN = "NaN:NaN:NaN,NaN".
Proof. reflexivity. Qed.

Lemma timeCode_Infinity (negative : bool) :
  timeCode (Infinity negative)
  = (if negative then "-Infinity" else "Infinity") ++ ":NaN:NaN,NaN".
Proof. destruct negative; reflexivity. Qed.

Lemma totalSeconds_not_finite (time : string) (tickRate : number) :
  timeValue time = NaN \/ tickRate = of_Z 0 ->
  totalSeconds time tickRate = NaN \/
  exists negative, totalSeconds time tickRate = Infinity negative.
Proof.
  unfold totalSeconds. intros [E | ->].
  - rewrite E. now left.
  - destruct (timeValue time) as [|s|q]; cbn.
    + now left.
    + right. eexists. reflexivity.
    + destruct (is_zero q); [now left|]. right. eexists. reflexivity.
Qed.

(** C8, as amended.  The conversion has no failure mode: for a tick count
    that is not a number, or a tick rate of zero, it returns a time code
    whose fields read [NaN] or [Infinity]; nothing is raised, and no cue is
    excluded: both modes still have one entry per cue. *)
Theorem invalid_time_input_not_rejected (time : string)
    (tickRate tickRate2 : number) (language1 language2 : string)
    (subtitles1 subtitles2 : list Cue) :
  timeValue time = NaN \/ tickRate = of_Z 0 ->
  In (convertTimeToSRT time tickRate)
     ["NaN:NaN:NaN,NaN"; "Infinity:NaN:NaN,NaN"; "-Infinity:NaN:NaN,NaN"] /\
  List.length
    (timelineEntries language1 language2 tickRate tickRate2
       subtitles1 subtitles2)
  = (List.length subtitles1 + List.length subtitles2)%nat /\
  List.length (pairedEntries (Some tickRate) subtitles1 subtitles2)
  = List.length subtitles1.
Proof.
  intros H. split; [|split].
  - unfold convertTimeToSRT.
    destruct (totalSeconds_not_finite time tickRate H) as [-> | [s ->]].
    + left. reflexivity.
    + rewrite timeCode_Infinity. destruct s; cbn; auto.
  - apply timeline_entries_length.
  - unfold pairedEntries. now rewrite number_from_length, pairedPass_length.
Qed.

(** C8, a witness: five ticks at a tick rate of zero. *)
Lemma invalid_time_input_not_rejected_witness :
  (timeValue "5t" = NaN \/ of_Z 0 = of_Z 0) /\
  (In (convertTimeToSRT "5t" (of_Z 0))
      ["NaN:NaN:NaN,NaN"; "Infinity:NaN:NaN,NaN"; "-Infinity:NaN:NaN,NaN"] /\
   List.length
     (timelineEntries "kr" "ch" (of_Z 0) (of_Z 10000000)
        Sample.quickA Sample.slowB)
   = (List.length Sample.quickA + List.length Sample.slowB)%nat /\
   List.length (pairedEntries (Some (of_Z 0)) Sample.quickA Sample.slowB)
   = List.length Sample.quickA).
Proof.
  split.
  - right. reflexivity.
  - apply (invalid_time_input_not_rejected "5t" (of_Z 0) (of_Z 10000000)
             "kr" "ch" Sample.quickA Sample.slowB).
    right. reflexivity.
Defined.

(** C8, the counterexample: with a declared tick rate of zero the conversion
    returns a time code instead of failing, and the cue is not excluded: it
    is the first entry of the timeline output, before the cue of the other
    file. *)
Lemma zero_tick_rate_cue_is_kept :
  convertTimeToSRT "5t" (of_Z 0) = "Infinity:NaN:NaN,NaN" /\
  Sample.combineSRT "timeline"
    (Sample.document "0" [Sample.krParagraph "1" "5t" "9t" "a1"])
    (Sample.document "10000000"
       [Sample.chParagraph "1" "10000000t" "20000000t" "b1"])
  = Some (Sample.lines
            ["1"; "Infinity:NaN:NaN,NaN --> Infinity:NaN:NaN,NaN"; "a1"; "";
             "2"; "00:00:01,000 --> 00:00:02,000"; "b1"; ""]).
Proof. split; vm_compute; reflexivity. Qed.

(** ** The exported operations *)

Lemma written_writeFile (path data : string) (fs : Files) :
  written (writeFile path data fs) path = Some data.
Proof. cbn. now rewrite String.eqb_refl. Qed.

Lemma combining_rerun (compute : string -> string -> string)
    (xmlFile1 xmlFile2 outputFilePath xmlData1 xmlData2 : string)
    (fs : Files) :
  fs xmlFile1 = Some xmlData1 -> fs xmlFile2 = Some xmlData2 ->
  outputFilePath <> xmlFile1 -> outputFilePath <> xmlFile2 ->
  exists fs1,
    combining compute xmlFile1 xmlFile2 outputFilePath fs = Resolved tt fs1 /\
    fs1 outputFilePath = Some (compute xmlData1 xmlData2) /\
    fs1 xmlFile1 = Some xmlData1 /\ fs1 xmlFile2 = Some xmlData2 /\
    (forall p, p <> outputFilePath -> fs1 p = fs p).
Proof.
  intros H1 H2 N1 N2. unfold combining, await, readFile, writeFile.
  rewrite H1, H2. eexists. split; [reflexivity|]. cbn beta.
  rewrite String.eqb_refl.
  apply not_eq_sym, String.eqb_neq in N1, N2. rewrite N1, N2.
  repeat split; auto.
  intros p Hp. apply String.eqb_neq in Hp. now rewrite Hp.
Qed.

Lemma combined_is_combining
    (run : string -> string -> string -> string -> string -> string -> IO unit)
    (language1 language2 mode : string) :
  In run [createCombinedSRT; createCombinedTXT] ->
  exists compute,
    forall xmlFile1 xmlFile2 outputFilePath,
      run xmlFile1 xmlFile2 outputFilePath language1 language2 mode
      = combining compute xmlFile1 xmlFile2 outputFilePath.
Proof.
  intros [<- | [<- | []]].
  - unfold createCombinedSRT. destruct (String.eqb mode "paired");
      eexists; intros; reflexivity.
  - unfold createCombinedTXT. destruct (String.eqb mode "paired");
      eexists; intros; reflexivity.
Qed.

(** C9. A combination in either mode, SRT or TXT, is a function of the
    contents of its two input files: run again on the files it left, with
    the inputs untouched, it resolves with the same text and leaves every
    file as it was; run on any other store holding the same two inputs it
    writes the same text. *)
Theorem combination_rerun_identical
    (run : string -> string -> string -> string -> string -> string -> IO unit)
    (xmlFile1 xmlFile2 outputFilePath language1 language2 mode : string)
    (xmlData1 xmlData2 : string) (fs : Files) :
  In run [createCombinedSRT; createCombinedTXT] ->
  fs xmlFile1 = Some xmlData1 -> fs xmlFile2 = Some xmlData2 ->
  outputFilePath <> xmlFile1 -> outputFilePath <> xmlFile2 ->
  exists (output : string) (fs1 fs2 : Files),
    run xmlFile1 xmlFile2 outputFilePath language1 language2 mode fs
    = Resolved tt fs1 /\
    fs1 outputFilePath = Some output /\
    run xmlFile1 xmlFile2 outputFilePath language1 language2 mode fs1
    = Resolved tt fs2 /\
    (forall path, fs2 path = fs1 path) /\
    (forall other : Files,
        other xmlFile1 = Some xmlData1 -> other xmlFile2 = Some xmlData2 ->
        written
          (run xmlFile1 xmlFile2 outputFilePath language1 language2 mode
             other) outputFilePath = Some output).
Proof.
  intros Hrun H1 H2 N1 N2.
  destruct (combined_is_combining run language1 language2 mode Hrun)
    as [compute Hc].
  rewrite Hc.
  destruct (combining_rerun compute _ _ _ _ _ fs H1 H2 N1 N2)
    as [fs1 [R1 [O1 [I1 [I2 _]]]]].
  destruct (combining_rerun compute _ _ _ _ _ fs1 I1 I2 N1 N2)
    as [fs2 [R2 [O2 [_ [_ Same]]]]].
  exists (compute xmlData1 xmlData2), fs1, fs2.
  repeat split; auto.
  - intros path. destruct (String.eqb_spec path outputFilePath) as [->|Hp].
    + now rewrite O1, O2.
    + now apply Same.
  - intros other A1 A2.
    unfold combining, await, readFile. rewrite A1, A2.
    apply written_writeFile.
Qed.

(** C9, a witness: the paired SRT combination of two files, written to a
    third one. *)
Lemma combination_rerun_identical_witness :
  In createCombinedSRT [createCombinedSRT; createCombinedTXT] /\
  Sample.millisDisk "a.xml" = Some Sample.millisKr /\
  Sample.millisDisk "b.xml" = Some Sample.millisCh /\
  "out.srt" <> "a.xml" /\ "out.srt" <> "b.xml" /\
  exists (output : string) (fs1 fs2 : Files),
    createCombinedSRT "a.xml" "b.xml" "out.srt" "kr" "ch" "paired"
      Sample.millisDisk = Resolved tt fs1 /\
    fs1 "out.srt" = Some output /\
    createCombinedSRT "a.xml" "b.xml" "out.srt" "kr" "ch" "paired" fs1
    = Resolved tt fs2 /\
    (forall path, fs2 path = fs1 path) /\
    (forall other : Files,
        other "a.xml" = Some Sample.millisKr ->
        other "b.xml" = Some Sample.millisCh ->
        written
          (createCombinedSRT "a.xml" "b.xml" "out.srt" "kr" "ch" "paired"
             other) "out.srt" = Some output).
Proof.
  split; [now left|]. split; [reflexivity|]. split; [reflexivity|].
  split; [discriminate|]. split; [discriminate|].
  apply (combination_rerun_identical createCombinedSRT
           "a.xml" "b.xml" "out.srt" "kr" "ch" "paired"
           Sample.millisKr Sample.millisCh Sample.millisDisk);
    [now left | reflexivity | reflexivity | discriminate | discriminate].
Defined.

(** ** The scenarios of the specification *)

(** The first scenario: equal start ticks, the cue of the first file comes
    first. *)
Example timeline_scenario :
  Sample.combineSRT "timeline"
    (Sample.document "10000000"
       [Sample.krParagraph "1" "0t" "10000000t" "a1"])
    (Sample.document "10000000"
       [Sample.chParagraph "1" "0t" "10000000t" "b1"])
  = Some (Sample.lines
            ["1"; "00:00:00,000 --> 00:00:01,000"; "a1"; "";
             "2"; "00:00:00,000 --> 00:00:01,000"; "b1"; ""]).
Proof. vm_compute. reflexivity. Qed.

(** The second scenario: the first cue finds its match 0.2 s away, the
    second finds none within the threshold. *)
Example paired_scenario :
  Sample.combineSRT "paired"
    (Sample.document "10000000"
       [Sample.krParagraph "1" "0t" "10000000t" "a1";
        Sample.krParagraph "2" "100000000t" "110000000t" "a2"])
    (Sample.document "10000000"
       [Sample.chParagraph "1" "2000000t" "10000000t" "b1";
        Sample.chParagraph "2" "200000000t" "210000000t" "b2"])
  = Some (Sample.lines
            ["1"; "00:00:00,000 --> 00:00:01,000"; "a1"; "b1"; "";
             "2"; "00:00:10,000 --> 00:00:11,000"; "a2"; ""]).
Proof. vm_compute. reflexivity. Qed.

(** The third scenario of the specification, from the files to the text
    written. *)
Example paired_empty_secondary_file :
  Sample.combineSRT "paired"
    (Sample.document "10000000"
       [Sample.krParagraph "1" "50000000t" "60000000t" "a1"])
    (Sample.document "10000000" [])
  = Some (Sample.lines ["1"; "00:00:05,000 --> 00:00:06,000"; "a1"; ""]).
Proof. vm_compute. reflexivity. Qed.

(** * Further properties of the code *)

(** ** Extraction *)

Lemma digit_of_nonneg (radix : Z) (c : ascii) (d : Z) :
  digit_of radix c = Some d -> 0 <= d.
Proof.
  unfold digit_of.
  set (n := Z.of_nat (nat_of_ascii c)).
  destruct (Z.leb_spec 48 n), (Z.leb_spec n 57), (Z.leb_spec 97 n),
    (Z.leb_spec n 122), (Z.leb_spec 65 n), (Z.leb_spec n 90); cbn [andb];
    match goal with
    | |- (if ?b then _ else _) = _ -> _ => destruct b eqn:Eb
    end;
    intros Hd; try discriminate; injection Hd as <-;
    try apply Z.ltb_lt in Eb; lia.
Qed.

Lemma digits_nonneg (d : string) :
  forall acc, 0 <= acc ->
    exists v, digits 10 (Some acc) d = Some v /\ 0 <= v.
Proof.
  induction d as [|c d IH]; intros acc Hacc; cbn [digits].
  - now exists acc.
  - destruct (digit_of 10 c) as [x|] eqn:E; [|now exists acc].
    apply IH. apply digit_of_nonneg in E. lia.
Qed.

Lemma parseInt_digits_nonneg (d : string) :
  d <> "" -> allDigits d = true ->
  exists v, 0 <= v /\ parseInt d = of_Z v.
Proof.
  destruct d as [|c d]; [congruence|]. intros _ H.
  cbn [allDigits] in H. apply andb_true_iff in H as [Hc Hd].
  assert (Hrest : forall a, 0 <= a -> exists v,
             0 <= v /\
             match digits 10 (Some a) d with
             | Some v => of_Z v
             | None => NaN
             end = of_Z v).
  { intros a Ha. destruct (digits_nonneg d a Ha) as [v [-> Hv]].
    now exists v. }
  apply digit_cases in Hc. cbn in Hc.
  destruct Hc as [<-|Hc].
  - destruct d as [|c' d']; [exists 0; split; [lia|reflexivity]|].
    cbn [allDigits] in Hd. apply andb_true_iff in Hd as [Hc' _].
    apply digit_cases in Hc'. cbn in Hc'.
    repeat (destruct Hc' as [<-|Hc']; [apply (Hrest 0); lia|]).
    contradiction.
  - repeat (destruct Hc as [<-|Hc]; [apply (Hrest _); cbv; discriminate|]).
    contradiction.
Qed.

Lemma tickString_count (s : string) :
  tickString s -> exists n, 0 <= n /\ timeValue s = of_Z n.
Proof.
  intros [d [-> [Hne Hd]]]. unfold timeValue.
  rewrite replace_t_digits by exact Hd.
  apply parseInt_digits_nonneg; assumption.
Qed.

Lemma count_not_negative (x : number) :
  (exists n, 0 <= n /\ x = of_Z n) ->
  x <> NaN /\ ltb x (of_Z 0) = false.
Proof.
  intros [n [Hn ->]]. split; [discriminate|].
  rewrite ltb_of_Z. now apply Z.ltb_ge.
Qed.

Lemma digit_of_below (radix : Z) (c : ascii) (d : Z) :
  digit_of radix c = Some d -> d < radix.
Proof.
  unfold digit_of.
  match goal with
  | |- (if ?b then _ else _) = _ -> _ => destruct b eqn:Eb
  end; intros Hd; [|discriminate].
  injection Hd as <-. now apply Z.ltb_lt.
Qed.

Lemma digits_below (d : string) :
  forall acc, 0 <= acc ->
    exists v, digits 10 (Some acc) d = Some v /\
              0 <= v < (acc + 1) * 10 ^ Z.of_nat (String.length d).
Proof.
  induction d as [|c d IH]; intros acc Hacc; cbn [digits String.length].
  - exists acc. split; [reflexivity | cbn; lia].
  - rewrite Nat2Z.inj_succ, Z.pow_succ_r by lia.
    pose proof (Z.pow_pos_nonneg 10 (Z.of_nat (String.length d))) as Hp.
    destruct (digit_of 10 c) as [x|] eqn:E.
    + pose proof (digit_of_nonneg _ _ _ E) as H0.
      pose proof (digit_of_below _ _ _ E) as H9.
      destruct (IH (10 * acc + x)) as [v [Hv Hb]]; [lia|].
      exists v. split; [exact Hv | nia].
    + exists acc. split; [reflexivity | nia].
Qed.

Lemma parseInt_digits_below (d : string) :
  d <> "" -> allDigits d = true ->
  exists v, 0 <= v < 10 ^ Z.of_nat (String.length d) /\ parseInt d = of_Z v.
Proof.
  destruct d as [|c d]; [congruence|]. intros _ H.
  cbn [allDigits] in H. apply andb_true_iff in H as [Hc Hd].
  cbn [String.length]. rewrite Nat2Z.inj_succ, Z.pow_succ_r by lia.
  assert (Hrest : forall a, 0 <= a <= 9 -> exists v,
             0 <= v < 10 * 10 ^ Z.of_nat (String.length d) /\
             match digits 10 (Some a) d with
             | Some v => of_Z v
             | None => NaN
             end = of_Z v).
  { intros a Ha. destruct (digits_below d a) as [v [-> Hv]]; [lia|].
    exists v. split; [nia | reflexivity]. }
  apply digit_cases in Hc. cbn in Hc.
  destruct Hc as [<-|Hc].
  - destruct d as [|c' d']; [exists 0; split; [cbn; lia | reflexivity]|].
    cbn [allDigits] in Hd. apply andb_true_iff in Hd as [Hc' _].
    apply digit_cases in Hc'. cbn in Hc'.
    repeat (destruct Hc' as [<-|Hc']; [apply (Hrest 0); lia|]).
    contradiction.
  - repeat (destruct Hc as [<-|Hc];
            [apply (Hrest _); cbv; split; discriminate|]).
    contradiction.
Qed.

Lemma length_append (a b : string) :
  String.length (a ++ b) = (String.length a + String.length b)%nat.
Proof.
  induction a as [|c a IH]; cbn [append String.length Nat.add];
    [reflexivity | now rewrite IH].
Qed.

Lemma tickString_safe (s : string) :
  tickString s -> (String.length s <= 16)%nat ->
  safeInteger (ticksOf (timeValue s)) = true.
Proof.
  intros [d [-> [Hne Hd]]] Hlen. unfold timeValue.
  rewrite replace_t_digits by exact Hd.
  destruct (parseInt_digits_below d Hne Hd) as [v [Hv ->]].
  rewrite ticksOf_of_Z. rewrite length_append in Hlen.
  cbn [String.length] in Hlen.
  assert (Hp : 10 ^ Z.of_nat (String.length d) <= 10 ^ 15)
    by (apply Z.pow_le_mono_r; lia).
  unfold safeInteger. apply andb_true_iff.
  split; [apply Z.leb_le; lia | apply Z.ltb_lt; lia].
Qed.

(** X1. Whatever the document and the language, the begin and the end of
    every extracted cue are decimal digits, at least one, followed by the
    letter t, and the tick count read from either is a number that is not
    negative: never [NaN], never below zero.  A tick count of at most
    fifteen digits is a safe integer. *)
Theorem extraction_yields_tick_counts (xmlContent language : string) :
  let count (time : string) :=
    tickString time /\
    timeValue time <> NaN /\
    ltb (timeValue time) (of_Z 0) = false /\
    ((String.length time <= 16)%nat ->
     safeInteger (ticksOf (timeValue time)) = true) in
  Forall (fun sub => count (begin sub) /\ count (end_ sub))
    (extractSubtitlesWithRegex xmlContent language).
Proof.
  cbv zeta.
  eapply Forall_impl; [|apply extracted_cues_are_ticks].
  intros sub [Hb [He _]].
  split; (split; [assumption|]);
    (split; [now apply count_not_negative, tickString_count|]);
    (split; [now apply count_not_negative, tickString_count|]);
    now apply tickString_safe.
Qed.

Lemma first_match_found {A : Type} (re : string -> option (A * string))
    (s : string) (a : A) :
  Regex.first_match re s = Some a ->
  exists s' rest, re s' = Some (a, rest).
Proof.
  induction s as [|c s IH]; cbn [Regex.first_match].
  - destruct (re "") as [[a' r]|] eqn:E; [|discriminate].
    intros H. injection H as <-. now exists "", r.
  - destruct (re (String c s)) as [[a' r]|] eqn:E.
    + intros H. injection H as <-. now exists (String c s), r.
    + exact IH.
Qed.

Lemma first_match_occurs {A : Type} (re : string -> option (A * string))
    (pat : string) :
  (forall s a rest, re s = Some (a, rest) ->
                    Str.strip_prefix pat s <> None) ->
  forall s a, Regex.first_match re s = Some a -> occursIn pat s = true.
Proof.
  intros Hre. induction s as [|c s IH]; intros a;
    cbn [Regex.first_match occursIn].
  - destruct (re "") as [[a' r]|] eqn:E; [|discriminate].
    intros _. apply Hre in E. now destruct (Str.strip_prefix pat "").
  - destruct (re (String c s)) as [[a' r]|] eqn:E.
    + intros _. apply Hre in E.
      now destruct (Str.strip_prefix pat (String c s)).
    + intros H. destruct (Str.strip_prefix pat (String c s));
        [reflexivity | eapply IH, H].
Qed.

(** X2. The tick rate read from a document is a number that is not
    negative, never [NaN] and never below zero (it can be zero); it is the
    default 10000000 whenever the text [ttp:tickRate='] (with a double
    quote) does not occur in the document. *)
Theorem tick_rate_is_a_count (xmlData : string) :
  (extractTickRate xmlData <> NaN /\
   ltb (extractTickRate xmlData) (of_Z 0) = false) /\
  (occursIn (Str.quoted "ttp:tickRate='") xmlData = true \/
   extractTickRate xmlData = of_Z 10000000).
Proof.
  unfold extractTickRate.
  destruct (Regex.first_match Regex.tickRateRegex xmlData) as [rate|] eqn:E.
  - split.
    + apply count_not_negative.
      apply first_match_found in E as [s' [rest E]].
      unfold Regex.tickRateRegex, Regex.bind in E. split_matches E.
      injection E as <- _.
      match goal with
      | H : Regex.digits1 _ = Some _ |- _ =>
          apply digits1_spec in H as [Hne Hd]
      end.
      now apply parseInt_digits_nonneg.
    + left. eapply first_match_occurs, E.
      intros s a rest H.
      unfold Regex.tickRateRegex, Regex.bind, Regex.lit in H.
      destruct (Str.strip_prefix (Str.quoted "ttp:tickRate='") s);
        [discriminate | discriminate H].
  - split; [split; [discriminate | reflexivity] | now right].
Qed.

Lemma replaced_prefix (pat q : string) :
  occursIn Str.nl q = false ->
  forall s,
    Str.strip_prefix q (Str.replace_all_from pat Str.nl 0 s) <> None ->
    Str.strip_prefix q s <> None.
Proof.
  induction q as [|a q IH]; intros Hq s; [discriminate|].
  cbn [occursIn Str.strip_prefix Str.nl] in Hq.
  destruct (Ascii.eqb "010" a) eqn:Ea; [discriminate|].
  destruct s as [|c s]; cbn [Str.replace_all_from]; [easy|].
  destruct (Str.strip_prefix pat (String c s)).
  - cbn [Str.nl append Str.strip_prefix].
    rewrite Ascii.eqb_sym, Ea. easy.
  - cbn [Str.strip_prefix]. destruct (Ascii.eqb a c); [|easy].
    apply IH. destruct q; [reflexivity | exact Hq].
Qed.

Lemma replace_all_clean (pat : string) :
  occursIn Str.nl pat = false -> pat <> "" ->
  forall s skip,
    occursIn pat (Str.replace_all_from pat Str.nl skip s) = false.
Proof.
  intros Hpat Hne. induction s as [|c s IH]; intros skip.
  - destruct pat; [congruence | reflexivity].
  - cbn [Str.replace_all_from]. destruct skip as [|k]; [|apply IH].
    pose proof (replaced_prefix pat pat Hpat (String c s)) as Hpre.
    cbn [Str.replace_all_from] in Hpre.
    destruct (Str.strip_prefix pat (String c s)) eqn:E.
    + destruct pat as [|a pat']; [congruence|].
      cbn [Str.nl append occursIn Str.strip_prefix].
      cbn [occursIn Str.strip_prefix Str.nl] in Hpat.
      destruct (Ascii.eqb "010" a) eqn:Ea; [discriminate|].
      rewrite Ascii.eqb_sym, Ea. apply IH.
    + cbn [occursIn].
      destruct (Str.strip_prefix pat
                  (String c (Str.replace_all_from pat Str.nl 0 s))) eqn:E'.
      * exfalso. apply Hpre; [congruence | reflexivity].
      * apply IH.
Qed.

(** X3. No extracted text contains the markup [<br/>]: in both formats
    every occurrence is replaced by a line feed, and the replacement creates
    no new occurrence. *)
Theorem extracted_text_has_no_break (xmlContent language : string) :
  Forall (fun sub => occursIn "<br/>" (text sub) = false)
    (extractSubtitlesWithRegex xmlContent language).
Proof.
  assert (Hclean : forall s, occursIn "<br/>" (breaksToNewlines s) = false).
  { intros s. apply replace_all_clean; [reflexivity | discriminate]. }
  unfold extractSubtitlesWithRegex.
  destruct (String.eqb language "kr"); [|destruct (String.eqb language "ch")];
    try constructor;
    apply Forall_map, Forall_forall; intros [[b e] body] _; apply Hclean.
Qed.

(** ** The sorts of the combinations *)

Lemma byBegin_ticks (a b : Cue) :
  isTicks (startTimeOf a) -> isTicks (startTimeOf b) ->
  comesAfter byBegin a b = (startTicks b <? startTicks a).
Proof.
  unfold comesAfter, byBegin, isTicks, startTicks. intros -> ->.
  rewrite sub_of_Z, ltb_of_Z, !ticksOf_of_Z.
  destruct (Z.ltb_spec 0 (ticksOf (startTimeOf a) - ticksOf (startTimeOf b))),
    (Z.ltb_spec (ticksOf (startTimeOf b)) (ticksOf (startTimeOf a)));
    try reflexivity; lia.
Qed.

Lemma extracted_isTicks (xmlContent language : string) :
  Forall (fun sub => isTicks (startTimeOf sub))
    (extractSubtitlesWithRegex xmlContent language).
Proof.
  eapply Forall_impl; [|apply extracted_cues_are_ticks].
  intros sub H. apply H.
Qed.

Lemma sortedCues_isTicks (xmlData language : string) :
  Forall (fun sub => isTicks (startTimeOf sub)) (sortedCues xmlData language).
Proof.
  apply (sort_ok byBegin (fun sub => isTicks (startTimeOf sub))),
    extracted_isTicks.
Qed.

Lemma sortedCues_ascending (xmlData language : string) :
  Sorted (ascending startTicks) (sortedCues xmlData language).
Proof.
  apply (sort_sorted byBegin startTicks
           (fun sub => isTicks (startTimeOf sub)) byBegin_ticks),
    extracted_isTicks.
Qed.

(** X4. The sort that opens the paired mode, on the cues of any document
    whose begin ticks are safe integers: the sorted array is a permutation
    of the extracted cues, in ascending order of their begin ticks, and the
    cues of equal begin ticks keep the order they have in the document. *)
Theorem paired_sort_is_stable_and_ascending (xmlData language : string) :
  safeTicks (extractSubtitlesWithRegex xmlData language) = true ->
  let cues := extractSubtitlesWithRegex xmlData language in
  let sorted := sortedCues xmlData language in
  Permutation sorted cues /\
  Sorted (ascending startTicks) sorted /\
  forall k,
    filter (fun sub => startTicks sub =? k) sorted
    = filter (fun sub => startTicks sub =? k) cues.
Proof.
  intros _.
  cbv zeta. split; [apply sort_perm|]. split; [apply sortedCues_ascending|].
  intros k.
  apply (sort_stable byBegin startTicks
           (fun sub => isTicks (startTimeOf sub)) byBegin_ticks),
    extracted_isTicks.
Qed.

(** X4, a witness: a Chinese document whose second cue, at 4000000 ticks,
    begins before its first one, at 13000000 ticks. *)
Lemma paired_sort_is_stable_and_ascending_witness :
  safeTicks (extractSubtitlesWithRegex Sample.unorderedCh "ch") = true /\
  let cues := extractSubtitlesWithRegex Sample.unorderedCh "ch" in
  let sorted := sortedCues Sample.unorderedCh "ch" in
  Permutation sorted cues /\
  Sorted (ascending startTicks) sorted /\
  forall k,
    filter (fun sub => startTicks sub =? k) sorted
    = filter (fun sub => startTicks sub =? k) cues.
Proof.
  split; [vm_compute; reflexivity|].
  apply (paired_sort_is_stable_and_ascending Sample.unorderedCh "ch").
  vm_compute. reflexivity.
Defined.

Lemma sort_ascending_unchanged {A : Type} (compareFn : A -> A -> number)
    (key : A -> Z) (ok : A -> Prop) :
  (forall a b, ok a -> ok b ->
               comesAfter compareFn a b = (key b <? key a)) ->
  forall l, Forall ok l -> Sorted (ascending key) l -> sort compareFn l = l.
Proof.
  intros Hkey l Hok Hs. induction Hs as [|x l Hs IH Hhd];
    cbn [sort fold_right]; [reflexivity|].
  inversion Hok as [|? ? Hx Hl]; subst.
  fold (sort compareFn l). rewrite (IH Hl).
  destruct Hhd as [|y l Hxy]; cbn [insert]; [reflexivity|].
  inversion Hl as [|? ? Hy _]; subst.
  rewrite (Hkey x y Hx Hy).
  unfold ascending in Hxy.
  destruct (Z.ltb_spec (key y) (key x)); [lia | reflexivity].
Qed.

(** X5. When the cues of a document already come in ascending order of
    their begin ticks, the sort of the paired mode leaves them as they are:
    the combination then follows the order of the document. *)
Theorem paired_sort_keeps_ascending_document (xmlData language : string) :
  Sorted (ascending startTicks) (extractSubtitlesWithRegex xmlData language) ->
  sortedCues xmlData language = extractSubtitlesWithRegex xmlData language.
Proof.
  intros Hs. unfold sortedCues.
  apply (sort_ascending_unchanged byBegin startTicks
           (fun sub => isTicks (startTimeOf sub)) byBegin_ticks);
    [apply extracted_isTicks | exact Hs].
Qed.

(** X5, a witness: a Chinese document with cues at 2700000 and 8100000
    ticks. *)
Lemma paired_sort_keeps_ascending_document_witness :
  Sorted (ascending startTicks)
    (extractSubtitlesWithRegex Sample.oneAndThreeSecondsCh "ch") /\
  sortedCues Sample.oneAndThreeSecondsCh "ch"
  = extractSubtitlesWithRegex Sample.oneAndThreeSecondsCh "ch".
Proof.
  assert (H : Sorted (ascending startTicks)
                (extractSubtitlesWithRegex Sample.oneAndThreeSecondsCh "ch")).
  { let l := eval vm_compute in
      (extractSubtitlesWithRegex Sample.oneAndThreeSecondsCh "ch") in
    change (extractSubtitlesWithRegex Sample.oneAndThreeSecondsCh "ch")
      with l.
    repeat constructor. vm_compute. discriminate. }
  split; [exact H|].
  apply (paired_sort_keeps_ascending_document
           Sample.oneAndThreeSecondsCh "ch" H).
Defined.

Lemma Sorted_weaken {A : Type} (R R' : A -> A -> Prop) (P : A -> Prop)
    (l : list A) :
  (forall a b, P a -> P b -> R a b -> R' a b) ->
  Forall P l -> Sorted R l -> Sorted R' l.
Proof.
  intros HR HP Hs. induction Hs as [|x l Hs IH Hhd]; constructor.
  - apply IH. now inversion HP.
  - inversion HP as [|? ? Hx Hl]; subst.
    destruct Hhd as [|y l Hxy]; constructor.
    inversion Hl; subst. now apply HR.
Qed.

(** X7. When the two documents declare the same positive tick rate and
    the rate and the begin ticks are safe integers, the timeline is in
    ascending order of the start times in seconds: no cue starts later than
    the cue printed after it. *)
Theorem timeline_common_rate_in_seconds
    (xmlData1 xmlData2 language1 language2 : string) (rate : Z) :
  safeTicks (extractSubtitlesWithRegex xmlData1 language1) = true ->
  safeTicks (extractSubtitlesWithRegex xmlData2 language2) = true ->
  0 < rate < 2 ^ 53 ->
  extractTickRate xmlData1 = of_Z rate ->
  extractTickRate xmlData2 = of_Z rate ->
  Sorted notLater
    (timelineOrder language1 language2
       (extractTickRate xmlData1) (extractTickRate xmlData2)
       (extractSubtitlesWithRegex xmlData1 language1)
       (extractSubtitlesWithRegex xmlData2 language2)).
Proof.
  intros _ _ [Hr _] -> ->.
  set (P := fun m : Merged =>
              isTicks (startTime m) /\
              startTime m = startTimeOf (cue m) /\
              tickRate m = of_Z rate).
  assert (HP : Forall P
                 (timelineOrder language1 language2 (of_Z rate) (of_Z rate)
                    (extractSubtitlesWithRegex xmlData1 language1)
                    (extractSubtitlesWithRegex xmlData2 language2))).
  { eapply Permutation_Forall; [apply Permutation_sym, sort_perm|].
    unfold mergedSubtitles. apply Forall_app.
    split; apply Forall_map;
      (eapply Forall_impl; [|apply extracted_isTicks]);
      intros sub H; repeat split; exact H. }
  apply (Sorted_weaken (ascending (fun m => ticksOf (startTime m))) _ P);
    [|exact HP|].
  - intros a b [Ha [Ea Ra]] [Hb [Eb Rb]] Hab.
    unfold notLater, mergedSeconds, startSeconds, totalSeconds.
    fold (startTimeOf (cue a)). fold (startTimeOf (cue b)).
    rewrite <- Ea, <- Eb, Ra, Rb, Ha, Hb, ltb_seconds by exact Hr.
    unfold ascending in Hab. apply Z.ltb_ge. exact Hab.
  - apply timeline_sorted_by_ticks; apply extracted_isTicks.
Qed.

(** X7, a witness: two documents at 10000000 ticks per second. *)
Lemma timeline_common_rate_in_seconds_witness :
  safeTicks (extractSubtitlesWithRegex Sample.oneSecondKr "kr") = true /\
  safeTicks (extractSubtitlesWithRegex Sample.tenMillionCh "ch") = true /\
  0 < 10000000 < 2 ^ 53 /\
  extractTickRate Sample.oneSecondKr = of_Z 10000000 /\
  extractTickRate Sample.tenMillionCh = of_Z 10000000 /\
  Sorted notLater
    (timelineOrder "kr" "ch"
       (extractTickRate Sample.oneSecondKr)
       (extractTickRate Sample.tenMillionCh)
       (extractSubtitlesWithRegex Sample.oneSecondKr "kr")
       (extractSubtitlesWithRegex Sample.tenMillionCh "ch")).
Proof.
  split; [vm_compute; reflexivity|].
  split; [vm_compute; reflexivity|].
  split; [split; reflexivity|].
  split; [vm_compute; reflexivity|].
  split; [vm_compute; reflexivity|].
  apply (timeline_common_rate_in_seconds
           Sample.oneSecondKr Sample.tenMillionCh "kr" "ch" 10000000);
    [vm_compute; reflexivity | vm_compute; reflexivity | split; reflexivity
    | vm_compute; reflexivity | vm_compute; reflexivity].
Defined.

(** ** The paired pass on cues that start at tick counts *)

Lemma window_lookup (subtitles2 : list Cue) (j k : Z) :
  0 <= j -> startJ j <= k < endJ subtitles2 j ->
  exists sub, nth_error subtitles2 (Z.to_nat k) = Some sub.
Proof.
  intros Hj Hk. apply (range_window_lookup subtitles2 j k), range_spec, Hk.
Qed.

(** The outcome of one search, in ticks. *)
Lemma findBest_in_ticks (subtitles2 : list Cue) (j : Z) (subtitle1 : Cue) :
  Forall (fun sub => isTicks (startTimeOf sub)) subtitles2 ->
  isTicks (startTimeOf subtitle1) ->
  0 <= j <= Z.of_nat (List.length subtitles2) ->
  let b := findBest subtitles2 j subtitle1 in
  let m := ticksOf (minTimeDiff b) in
  let distance := tickDistance subtitles2 (startTicks subtitle1) in
  minTimeDiff b = of_Z m /\
  (bestMatch b = None /\ m = 2 ^ 53 - 1 \/
   bestMatch b <> None /\
   startJ j <= bestMatchIndex b < endJ subtitles2 j /\
   m = distance (bestMatchIndex b)) /\
  (forall k, startJ j <= k < endJ subtitles2 j ->
     m <= distance k /\
     (k < bestMatchIndex b -> m < distance k) /\
     (bestMatch b = None -> 2 ^ 53 - 1 <= distance k)).
Proof.
  intros H2 H1 Hj b m distance.
  assert (Hfound : minTimeDiff b = of_Z m /\
            (bestMatch b = None /\ m = 2 ^ 53 - 1 \/
             bestMatch b <> None /\
             startJ j <= bestMatchIndex b < endJ subtitles2 j /\
             m = distance (bestMatchIndex b))).
  { subst m distance.
    destruct (findBest_found subtitles2 j subtitle1)
      as [E|[c [Hin [Hn [Hb Hd]]]]]; fold b in E || fold b in Hin, Hn, Hb, Hd.
    - rewrite E. cbn [noBest minTimeDiff bestMatch].
      unfold MAX_SAFE_INTEGER. rewrite ticksOf_of_Z. split; [reflexivity|].
      now left.
    - assert (Hc : isTicks (startTimeOf c)).
      { rewrite Forall_forall in H2. eapply H2, nth_error_In, Hn. }
      rewrite Hd, H1, Hc, sub_of_Z, abs_of_Z, ticksOf_of_Z.
      split; [reflexivity|]. right. rewrite Hb.
      split; [discriminate|]. apply range_spec in Hin. split; [exact Hin|].
      unfold tickDistance, startTicks. now rewrite Hn. }
  split; [apply Hfound|]. split; [apply Hfound|].
  intros k Hk.
  destruct (window_lookup subtitles2 j k ltac:(lia) Hk) as [c Hc].
  pose proof (findBest_nearest subtitles2 j subtitle1 H2 H1 Hj k c Hk Hc)
    as Hnear.
  cbv zeta in Hnear. fold b in Hnear. subst m distance.
  unfold tickDistance, startTicks. rewrite Hc. exact Hnear.
Qed.

Lemma pass_of_documents (xmlData1 xmlData2 language1 language2 : string)
    (P : Iteration -> Prop) :
  (forall j subtitle1,
      0 <= j <= Z.of_nat (List.length (sortedCues xmlData2 language2)) ->
      isTicks (startTimeOf subtitle1) ->
      P {| cursor := j; primary := subtitle1;
           best := findBest (sortedCues xmlData2 language2) j subtitle1 |}) ->
  Forall P
    (pairedPass (sortedCues xmlData2 language2) 0
       (sortedCues xmlData1 language1)).
Proof.
  intros HP.
  eapply Forall_impl;
    [|apply (pairedPass_invariant (sortedCues xmlData2 language2)
               (sortedCues xmlData1 language1) 0); lia].
  intros [j a b] [Hj [Hin Hb]]. cbn [cursor primary best] in *. subst b.
  apply HP; [exact Hj|].
  pose proof (sortedCues_isTicks xmlData1 language1) as H1.
  rewrite Forall_forall in H1. now apply H1.
Qed.

(** X8. In the paired combination of any two documents whose begin ticks
    are safe integers, every iteration selects, among the secondary cues of
    its window, the earliest of those whose begin is nearest in ticks to the
    begin of the primary cue; it selects none only if every cue of the
    window is [2^53 - 1] ticks away or more. *)
Theorem paired_selects_nearest_of_window
    (xmlData1 xmlData2 language1 language2 : string) :
  safeTicks (extractSubtitlesWithRegex xmlData1 language1) = true ->
  safeTicks (extractSubtitlesWithRegex xmlData2 language2) = true ->
  let subtitles2 := sortedCues xmlData2 language2 in
  Forall
    (fun it =>
       let distance := tickDistance subtitles2 (startTicks (primary it)) in
       let m := ticksOf (minTimeDiff (best it)) in
       (bestMatch (best it) = None \/
        startJ (cursor it) <= bestMatchIndex (best it)
          < endJ subtitles2 (cursor it) /\
        m = distance (bestMatchIndex (best it))) /\
       (forall k,
           startJ (cursor it) <= k < endJ subtitles2 (cursor it) ->
           m <= distance k /\
           (k < bestMatchIndex (best it) -> m < distance k) /\
           (bestMatch (best it) = None -> 2 ^ 53 - 1 <= distance k)))
    (pairedPass subtitles2 0 (sortedCues xmlData1 language1)).
Proof.
  intros _ _.
  cbv zeta. apply pass_of_documents. intros j a Hj Ha.
  cbn [cursor primary best].
  destruct (findBest_in_ticks (sortedCues xmlData2 language2) j a
              (sortedCues_isTicks xmlData2 language2) Ha Hj)
    as [_ [Hsel Hall]].
  split; [|exact Hall]. destruct Hsel as [[E _]|[_ H]]; [now left | now right].
Qed.

(** X8, a witness: a Korean document with a cue at 10000000 ticks and a
    Chinese document with cues at 4000000 and 13000000 ticks. *)
Lemma paired_selects_nearest_of_window_witness :
  safeTicks (extractSubtitlesWithRegex Sample.oneSecondKr "kr") = true /\
  safeTicks (extractSubtitlesWithRegex Sample.tenMillionCh "ch") = true /\
  let subtitles2 := sortedCues Sample.tenMillionCh "ch" in
  Forall
    (fun it =>
       let distance := tickDistance subtitles2 (startTicks (primary it)) in
       let m := ticksOf (minTimeDiff (best it)) in
       (bestMatch (best it) = None \/
        startJ (cursor it) <= bestMatchIndex (best it)
          < endJ subtitles2 (cursor it) /\
        m = distance (bestMatchIndex (best it))) /\
       (forall k,
           startJ (cursor it) <= k < endJ subtitles2 (cursor it) ->
           m <= distance k /\
           (k < bestMatchIndex (best it) -> m < distance k) /\
           (bestMatch (best it) = None -> 2 ^ 53 - 1 <= distance k)))
    (pairedPass subtitles2 0 (sortedCues Sample.oneSecondKr "kr")).
Proof.
  split; [vm_compute; reflexivity|].
  split; [vm_compute; reflexivity|].
  apply (paired_selects_nearest_of_window
           Sample.oneSecondKr Sample.tenMillionCh "kr" "ch");
    vm_compute; reflexivity.
Defined.

(** X9. In the paired combination of any two documents whose begin ticks
    are safe integers, a primary cue gets a second text exactly when some
    secondary cue of its window begins less than 10000000 ticks away from
    it. *)
Theorem paired_accepts_iff_window_has_near_cue
    (xmlData1 xmlData2 language1 language2 : string) :
  safeTicks (extractSubtitlesWithRegex xmlData1 language1) = true ->
  safeTicks (extractSubtitlesWithRegex xmlData2 language2) = true ->
  let subtitles2 := sortedCues xmlData2 language2 in
  Forall
    (fun it =>
       secondText (best it) <> [] <->
       exists k,
         startJ (cursor it) <= k < endJ subtitles2 (cursor it) /\
         tickDistance subtitles2 (startTicks (primary it)) k < 10000000)
    (pairedPass subtitles2 0 (sortedCues xmlData1 language1)).
Proof.
  intros _ _.
  cbv zeta. apply pass_of_documents. intros j a Hj Ha.
  cbn [cursor primary best].
  destruct (findBest_in_ticks (sortedCues xmlData2 language2) j a
              (sortedCues_isTicks xmlData2 language2) Ha Hj)
    as [Hm [Hsel Hall]].
  unfold secondText, accepted. rewrite Hm, ltb_of_Z.
  destruct Hsel as [[E Hmax]|[Hsome [Hk Hd]]].
  - rewrite E. split; [congruence|].
    intros [k [Hk Hlt]]. destruct (Hall k Hk) as [_ [_ Hfar]].
    specialize (Hfar E). lia.
  - destruct (bestMatch (findBest (sortedCues xmlData2 language2) j a))
      as [c|]; [|congruence].
    destruct (Z.ltb_spec
                (ticksOf (minTimeDiff
                            (findBest (sortedCues xmlData2 language2) j a)))
                10000000) as [Hlt|Hge].
    + split; [|discriminate]. intros _.
      exists (bestMatchIndex (findBest (sortedCues xmlData2 language2) j a)).
      split; [exact Hk | lia].
    + split; [congruence|].
      intros [k [Hk' Hlt]]. destruct (Hall k Hk') as [Hle _]. lia.
Qed.

(** X9, a witness: the same two documents. *)
Lemma paired_accepts_iff_window_has_near_cue_witness :
  safeTicks (extractSubtitlesWithRegex Sample.oneSecondKr "kr") = true /\
  safeTicks (extractSubtitlesWithRegex Sample.tenMillionCh "ch") = true /\
  let subtitles2 := sortedCues Sample.tenMillionCh "ch" in
  Forall
    (fun it =>
       secondText (best it) <> [] <->
       exists k,
         startJ (cursor it) <= k < endJ subtitles2 (cursor it) /\
         tickDistance subtitles2 (startTicks (primary it)) k < 10000000)
    (pairedPass subtitles2 0 (sortedCues Sample.oneSecondKr "kr")).
Proof.
  split; [vm_compute; reflexivity|].
  split; [vm_compute; reflexivity|].
  apply (paired_accepts_iff_window_has_near_cue
           Sample.oneSecondKr Sample.tenMillionCh "kr" "ch");
    vm_compute; reflexivity.
Defined.

Lemma Sorted_adjacent {A : Type} (R : A -> A -> Prop) (l : list A) :
  Sorted R l ->
  forall i x y,
    nth_error l i = Some x -> nth_error l (S i) = Some y -> R x y.
Proof.
  intros Hs. induction Hs as [|a l Hs IH Hhd]; intros i x y Hx Hy.
  - destruct i; discriminate.
  - destruct i as [|i]; cbn [nth_error] in Hx, Hy.
    + injection Hx as <-. destruct Hhd as [|b l Hab]; [discriminate|].
      cbn [nth_error] in Hy. now injection Hy as <-.
    + eapply IH; eassumption.
Qed.

Section Monotone.

Variable subtitles2 : list Cue.

Hypothesis ticks2 : Forall (fun sub => isTicks (startTimeOf sub)) subtitles2.
Hypothesis sorted2 : Sorted (ascending startTicks) subtitles2.

Lemma nearer_later (k p t : Z) :
  1 <= k < Z.of_nat (List.length subtitles2) -> t <= p ->
  tickDistance subtitles2 t k < tickDistance subtitles2 t (k - 1) ->
  tickDistance subtitles2 p k < tickDistance subtitles2 p (k - 1).
Proof.
  intros Hk Hp. unfold tickDistance.
  destruct (nth_error subtitles2 (Z.to_nat (k - 1))) as [x|] eqn:Ex.
  2:{ apply nth_error_None in Ex. lia. }
  destruct (nth_error subtitles2 (Z.to_nat k)) as [y|] eqn:Ey.
  2:{ apply nth_error_None in Ey. lia. }
  replace (Z.to_nat k) with (S (Z.to_nat (k - 1))) in Ey by lia.
  pose proof (Sorted_adjacent _ _ sorted2 _ _ _ Ex Ey) as Hxy.
  unfold ascending, startTicks in Hxy. lia.
Qed.

Lemma advance_monotone (j t : Z) (subtitle1 : Cue) :
  0 <= j <= Z.of_nat (List.length subtitles2) ->
  isTicks (startTimeOf subtitle1) ->
  t <= startTicks subtitle1 ->
  settled subtitles2 j t ->
  let j' := advance j (findBest subtitles2 j subtitle1) in
  j <= j' <= Z.of_nat (List.length subtitles2) /\
  settled subtitles2 j' (startTicks subtitle1).
Proof.
  intros Hj H1 Ht Hset j'.
  destruct (findBest_in_ticks subtitles2 j subtitle1 ticks2 H1 Hj)
    as [Hm [Hsel Hall]].
  pose proof (advance_bounds subtitles2 j subtitle1 Hj) as Hadv.
  cbv zeta in Hadv. fold j' in Hadv.
  destruct Hadv as [[_ Hin] [Hacc Hrej]].
  destruct (accepted (findBest subtitles2 j subtitle1)) eqn:E.
  - destruct (Hacc eq_refl) as [Hk Hj']. clear Hacc Hrej.
    set (k := bestMatchIndex (findBest subtitles2 j subtitle1)) in *.
    destruct Hsel as [[Hnone _]|[_ [Hwin Hmk]]].
    { unfold accepted in E. now rewrite Hnone in E. }
    assert (Hge : j - 1 <= k).
    { destruct (Z.lt_ge_cases k (j - 1)) as [Hlt|]; [|assumption].
      exfalso. assert (Hk2 : k = j - 2) by lia.
      assert (H2 : 2 <= j) by lia.
      specialize (Hset H2 (startTicks subtitle1) Ht).
      destruct (Hall (j - 1)) as [Hle _].
      { unfold endJ, startJ, searchWindow. lia. }
      rewrite Hmk, Hk2 in Hle. lia. }
    split; [lia|].
    intros H2 p Hp. rewrite Hj'.
    replace (k + 1 - 1) with k by lia.
    replace (k + 1 - 2) with (k - 1) by lia.
    apply (nearer_later k p (startTicks subtitle1)); [lia | exact Hp |].
    destruct (Hall (k - 1)) as [_ [Hlt _]].
    { unfold endJ, startJ, searchWindow in *. lia. }
    rewrite <- Hmk. apply Hlt. lia.
  - rewrite (Hrej eq_refl). split; [lia|].
    intros H2 p Hp. apply Hset; [exact H2 | lia].
Qed.

Lemma pass_monotone (subtitles1 : list Cue) :
  Forall (fun sub => isTicks (startTimeOf sub)) subtitles1 ->
  Sorted (ascending startTicks) subtitles1 ->
  forall j t,
    0 <= j <= Z.of_nat (List.length subtitles2) ->
    match subtitles1 with
    | [] => True
    | sub :: _ => t <= startTicks sub
    end ->
    settled subtitles2 j t ->
    Forall (fun it => j <= cursor it <= advance (cursor it) (best it))
      (pairedPass subtitles2 j subtitles1) /\
    Sorted Z.le (map cursor (pairedPass subtitles2 j subtitles1)).
Proof.
  intros H1 Hs. induction Hs as [|a l Hs IH Hhd]; intros j t Hj Ht Hset;
    cbn [pairedPass map].
  - split; constructor.
  - inversion H1 as [|? ? Ha Hl]; subst.
    destruct (advance_monotone j t a Hj Ha Ht Hset) as [Hj' Hset'].
    cbv zeta in Hj', Hset'.
    destruct (IH Hl (advance j (findBest subtitles2 j a)) (startTicks a))
      as [Hall Hsorted]; [lia | | exact Hset' |].
    { destruct Hhd as [|b l Hab]; [exact I | exact Hab]. }
    split.
    + constructor; [cbn [cursor best]; lia|].
      eapply Forall_impl; [|exact Hall]. cbn beta. intros it H. lia.
    + constructor; [exact Hsorted|].
      cbn [cursor].
      destruct (pairedPass subtitles2 (advance j (findBest subtitles2 j a)) l)
        as [|it rest]; constructor.
      inversion Hall; subst. lia.
Qed.

End Monotone.

(** X10. In the paired combination of any two documents the cursor never
    moves back: both arrays having been sorted, the cursors of the
    successive iterations are in ascending order, and the cursor an
    iteration leaves is never before the one it found. *)
Theorem paired_cursor_never_moves_back
    (xmlData1 xmlData2 language1 language2 : string) :
  let pass :=
    pairedPass (sortedCues xmlData2 language2) 0
      (sortedCues xmlData1 language1) in
  Sorted Z.le (map cursor pass) /\
  Forall (fun it => cursor it <= advance (cursor it) (best it)) pass.
Proof.
  cbv zeta.
  destruct (pass_monotone (sortedCues xmlData2 language2)
              (sortedCues_isTicks xmlData2 language2)
              (sortedCues_ascending xmlData2 language2)
              (sortedCues xmlData1 language1)
              (sortedCues_isTicks xmlData1 language1)
              (sortedCues_ascending xmlData1 language1)
              0
              (match sortedCues xmlData1 language1 with
               | [] => 0
               | a :: _ => startTicks a
               end))
    as [Hall Hsorted].
  - lia.
  - destruct (sortedCues xmlData1 language1); [exact I | lia].
  - intros H2. lia.
  - split; [exact Hsorted|].
    eapply Forall_impl; [|exact Hall]. cbn beta. intros it H. lia.
Qed.

(** ** The threshold of the paired mode at the default tick rate *)

Lemma seconds_of_ticks (rate x : Z) :
  0 < rate ->
  exists q, Num.div (of_Z x) (of_Z rate) = Finite q /\
            (q == inject_Z x / inject_Z rate)%Q.
Proof.
  intros Hr. unfold Num.div, of_Z, is_zero.
  change (Qcompare (inject_Z rate) 0)
    with (Qcompare (inject_Z rate) (inject_Z 0)).
  rewrite (Qcompare_inject_Z rate 0).
  destruct (Z.compare_spec rate 0) as [E|E|_]; try lia.
  eexists. split; [reflexivity | apply Qred_correct].
Qed.

(** With one positive tick rate, two starts are less than [bound / rate]
    seconds apart exactly when they are less than [bound] ticks apart. *)
Lemma gap_seconds_ticks (rate bound x y : Z) :
  0 < rate ->
  ltb (Num.abs (sub (Num.div (of_Z x) (of_Z rate))
                    (Num.div (of_Z y) (of_Z rate))))
      (Num.div (of_Z bound) (of_Z rate))
  = (Z.abs (x - y) <? bound).
Proof.
  intros Hr.
  destruct (seconds_of_ticks rate x Hr) as [qx [-> Hx]].
  destruct (seconds_of_ticks rate y Hr) as [qy [-> Hy]].
  destruct (seconds_of_ticks rate bound Hr) as [qb [-> Hb]].
  cbn [sub Num.abs ltb].
  assert (E : Qcompare (Qabs (Qred (qx - qy))) qb
              = Z.compare (Z.abs (x - y)) bound).
  { transitivity
      (Qcompare (Qabs (inject_Z (x - y) / inject_Z rate))
                (inject_Z bound / inject_Z rate)).
    - apply Qcompare_comp; [|exact Hb].
      apply Qabs_wd. rewrite Qred_correct, Hx, Hy.
      destruct rate as [|p|p]; try lia.
      unfold Qeq, Qminus, Qplus, Qopp, Qdiv, Qmult, Qinv, inject_Z.
      cbn [Qnum Qden]. rewrite !Pos2Z.inj_mul. ring.
    - destruct rate as [|p|p]; try lia.
      unfold Qcompare, Qabs, Qdiv, Qmult, Qinv, inject_Z. cbn [Qnum Qden].
      rewrite !Z.mul_1_r, !Pos.mul_1_l.
      destruct (Z.compare_spec (Z.abs (x - y) * Z.pos p) (bound * Z.pos p)),
        (Z.compare_spec (Z.abs (x - y)) bound); try reflexivity; nia. }
  rewrite E. unfold Z.ltb. reflexivity.
Qed.

Lemma pairedEntries_Forall2_on (P : Cue -> Prop) (R : Cue -> Entry -> Prop)
    (tickRate1 : option number) (subtitles2 : list Cue) :
  (forall i j subtitle1,
      P subtitle1 ->
      R subtitle1
        (pairedEntry tickRate1 i
           {| cursor := j; primary := subtitle1;
              best := findBest subtitles2 j subtitle1 |})) ->
  forall subtitles1, Forall P subtitles1 ->
  forall i j,
    Forall2 R subtitles1
      (number_from i (pairedEntry tickRate1)
         (pairedPass subtitles2 j subtitles1)).
Proof.
  intros HR l Hl. induction Hl as [|a l Ha Hl IH]; intros i k;
    cbn [pairedPass number_from]; constructor; auto.
Qed.

(** X11. When the two documents declare the same positive tick rate and
    the rate and the begin ticks are safe integers, the two cues of every
    pair the paired mode prints start less than [10000000 / rate] seconds
    apart: less than one second at the default rate of 10000000 ticks per
    second. *)
Theorem paired_gap_in_seconds
    (xmlData1 xmlData2 language1 language2 : string) (rate : Z) :
  safeTicks (extractSubtitlesWithRegex xmlData1 language1) = true ->
  safeTicks (extractSubtitlesWithRegex xmlData2 language2) = true ->
  0 < rate < 2 ^ 53 ->
  extractTickRate xmlData1 = of_Z rate ->
  extractTickRate xmlData2 = of_Z rate ->
  Forall2
    (fun a e =>
       texts e = [text a] \/
       exists b,
         In b (sortedCues xmlData2 language2) /\
         texts e = [text a; text b] /\
         ltb (gapSeconds (extractTickRate xmlData1)
                (extractTickRate xmlData2) a b)
             (Num.div (of_Z 10000000) (of_Z rate)) = true)
    (sortedCues xmlData1 language1)
    (pairedEntries (Some (extractTickRate xmlData1))
       (sortedCues xmlData1 language1) (sortedCues xmlData2 language2)).
Proof.
  intros _ _ [Hr _] -> ->. unfold pairedEntries.
  apply (pairedEntries_Forall2_on (fun sub => isTicks (startTimeOf sub)));
    [|apply sortedCues_isTicks].
  intros i k a Ha. cbn [pairedEntry texts primary best].
  unfold secondText.
  destruct (accepted (findBest (sortedCues xmlData2 language2) k a)) eqn:Hacc.
  - destruct (accepted_match _ _ _ Hacc) as [c [_ [Hn [Hb Hd]]]].
    right. exists c. rewrite Hb.
    assert (Hin : In c (sortedCues xmlData2 language2))
      by (eapply nth_error_In, Hn).
    split; [exact Hin|]. split; [reflexivity|].
    pose proof (sortedCues_isTicks xmlData2 language2) as H2.
    rewrite Forall_forall in H2. specialize (H2 c Hin).
    unfold gapSeconds, startSeconds, totalSeconds.
    fold (startTimeOf a). fold (startTimeOf c).
    rewrite Ha, H2 in Hd |- *.
    rewrite gap_seconds_ticks by exact Hr.
    now rewrite sub_of_Z, abs_of_Z, ltb_of_Z in Hd.
  - left. now destruct (bestMatch _).
Qed.

(** X11, a witness: two documents at the default rate, where the bound is
    one second. *)
Lemma paired_gap_in_seconds_witness :
  safeTicks (extractSubtitlesWithRegex Sample.oneSecondKr "kr") = true /\
  safeTicks (extractSubtitlesWithRegex Sample.tenMillionCh "ch") = true /\
  0 < 10000000 < 2 ^ 53 /\
  extractTickRate Sample.oneSecondKr = of_Z 10000000 /\
  extractTickRate Sample.tenMillionCh = of_Z 10000000 /\
  Num.div (of_Z 10000000) (of_Z 10000000) = of_Z 1 /\
  Forall2
    (fun a e =>
       texts e = [text a] \/
       exists b,
         In b (sortedCues Sample.tenMillionCh "ch") /\
         texts e = [text a; text b] /\
         ltb (gapSeconds (extractTickRate Sample.oneSecondKr)
                (extractTickRate Sample.tenMillionCh) a b)
             (Num.div (of_Z 10000000) (of_Z 10000000)) = true)
    (sortedCues Sample.oneSecondKr "kr")
    (pairedEntries (Some (extractTickRate Sample.oneSecondKr))
       (sortedCues Sample.oneSecondKr "kr")
       (sortedCues Sample.tenMillionCh "ch")).
Proof.
  split; [vm_compute; reflexivity|].
  split; [vm_compute; reflexivity|].
  split; [split; reflexivity|].
  split; [vm_compute; reflexivity|].
  split; [vm_compute; reflexivity|].
  split; [vm_compute; reflexivity|].
  apply (paired_gap_in_seconds
           Sample.oneSecondKr Sample.tenMillionCh "kr" "ch" 10000000);
    [vm_compute; reflexivity | vm_compute; reflexivity | split; reflexivity
    | vm_compute; reflexivity | vm_compute; reflexivity].
Defined.

(** ** The TXT outputs *)

Lemma sort_map {A B : Type} (f : A -> B) (compareA : A -> A -> number)
    (compareB : B -> B -> number) (ok : A -> Prop) :
  (forall a b, ok a -> ok b -> compareB (f a) (f b) = compareA a b) ->
  forall l, Forall ok l ->
            sort compareB (map f l) = map f (sort compareA l).
Proof.
  intros Hf.
  assert (Hins : forall x l,
             ok x -> Forall ok l ->
             insert compareB (f x) (map f l) = map f (insert compareA x l)).
  { intros x l Hx Hl. induction Hl as [|y l Hy Hl IH]; cbn [insert map];
      [reflexivity|].
    unfold comesAfter. rewrite (Hf x y Hx Hy).
    destruct (ltb (of_Z 0) (compareA x y)); cbn [map]; [|reflexivity].
    now rewrite IH. }
  intros l Hl. induction Hl as [|x l Hx Hl IH]; cbn [sort fold_right map];
    [reflexivity|].
  fold (sort compareB (map f l)). fold (sort compareA l).
  rewrite IH. apply Hins; [exact Hx | now apply sort_ok].
Qed.

Lemma untimed_paired (tickRate1 : number) (l : list Iteration) :
  forall i,
    map untimed (number_from i (pairedEntry (Some tickRate1)) l)
    = number_from i (pairedEntry None) l.
Proof.
  induction l as [|it l IH]; intros i; cbn [number_from map];
    [reflexivity|].
  now rewrite IH.
Qed.

Lemma timelineTXT_fold (l : list Merged) :
  forall acc i,
    fold_left
      (fun txtContent subtitle =>
         txtContent ++ (text (cueTXT subtitle) ++ Str.nl ++ Str.nl))
      (map (fun m => taggedTXT (language m) (cue m)) l) acc
    = acc ++ renderAll (map untimed (number_from i timelineEntry l)).
Proof.
  induction l as [|m l IH]; intros acc i.
  - cbn. now rewrite append_empty_r.
  - cbn [map fold_left number_from]. rewrite (IH _ (S i)), renderAll_cons.
    unfold render, untimed.
    cbn [timelineEntry timeRange texts taggedTXT cueTXT map joinAll
         fold_right].
    flatten_append. reflexivity.
Qed.

Lemma timelineTXT_renders (language1 language2 : string)
    (tickRate1 tickRate2 : number) (subtitles1 subtitles2 : list Cue) :
  timelineTXT language1 language2 subtitles1 subtitles2
  = renderAll
      (map untimed
         (timelineEntries language1 language2 tickRate1 tickRate2
            subtitles1 subtitles2)).
Proof.
  unfold timelineTXT, timelineEntries, timelineOrder.
  replace (map (taggedTXT language1) subtitles1
           ++ map (taggedTXT language2) subtitles2)%list
    with (map (fun m => taggedTXT (language m) (cue m))
            (mergedSubtitles language1 language2 tickRate1 tickRate2
               subtitles1 subtitles2))
    by (unfold mergedSubtitles; now rewrite map_app, !map_map).
  rewrite (sort_map (fun m => taggedTXT (language m) (cue m))
             byStartTime
             (fun a b => sub (startTimeTXT a) (startTimeTXT b))
             (fun m => startTime m = startTimeOf (cue m))).
  - now rewrite (timelineTXT_fold _ "" 1).
  - intros a b Ha Hb. unfold byStartTime. cbn [taggedTXT startTimeTXT].
    now rewrite Ha, Hb.
  - unfold mergedSubtitles. apply Forall_app.
    split; apply Forall_map, Forall_forall; reflexivity.
Qed.

(** X12. In both modes the TXT output of a combination is its SRT output
    without the numbers and the time ranges: the same entries in the same
    order, with the same pairs in paired mode, whatever the tick rates the
    SRT output is printed with. *)
Theorem txt_output_is_untimed_srt_output (language1 language2 : string)
    (tickRate1 tickRate2 : number) (subtitles1 subtitles2 : list Cue) :
  let paired := pairedEntries (Some tickRate1) subtitles1 subtitles2 in
  let timeline :=
    timelineEntries language1 language2 tickRate1 tickRate2
      subtitles1 subtitles2 in
  (pairedSRT tickRate1 subtitles1 subtitles2 = renderAll paired /\
   pairedTXT subtitles1 subtitles2 = renderAll (map untimed paired)) /\
  (timelineSRT language1 language2 tickRate1 tickRate2 subtitles1 subtitles2
   = renderAll timeline /\
   timelineTXT language1 language2 subtitles1 subtitles2
   = renderAll (map untimed timeline)).
Proof.
  cbv zeta. repeat split.
  - apply pairedSRT_renders.
  - rewrite pairedTXT_renders. unfold pairedEntries.
    now rewrite untimed_paired.
  - apply timelineSRT_renders.
  - apply timelineTXT_renders.
Qed.

(** ** The first version of the combination *)

Lemma legacy_secondText_lines (o : option Cue) :
  match o with
  | Some subtitle2 => text subtitle2 ++ Str.nl
  | None => ""
  end
  = joinAll (map (fun t => t ++ Str.nl)
               match o with
               | Some subtitle2 => [text subtitle2]
               | None => []
               end).
Proof.
  destruct o; cbn [map joinAll fold_right];
    [now rewrite append_empty_r | reflexivity].
Qed.

Lemma legacy_render_entry (r : option number) (subtitles2 : list Cue)
    (i : nat) (a : Cue) :
  render (Legacy.entry r subtitles2 i a)
  = match r with
    | Some rate =>
        Str.of_nat i ++ Str.nl
        ++ convertTimeToSRT (begin a) rate ++ " --> "
        ++ convertTimeToSRT (end_ a) rate ++ Str.nl
    | None => ""
    end
    ++ text a ++ Str.nl
    ++ match Legacy.subtitle2For subtitles2 a with
       | Some subtitle2 => text subtitle2 ++ Str.nl
       | None => ""
       end
    ++ Str.nl.
Proof.
  rewrite legacy_secondText_lines. unfold render, timeLine, Legacy.entry.
  destruct r; cbn [timeRange index texts fst snd map joinAll fold_right];
    flatten_append; reflexivity.
Qed.

Lemma legacy_combinedSRT_fold (tickRate1 : number)
    (subtitles2 subtitles1 : list Cue) :
  forall acc i,
    fst (fold_left (Legacy.srtStep tickRate1 subtitles2) subtitles1 (acc, i))
    = acc ++ renderAll
               (number_from i (Legacy.entry (Some tickRate1) subtitles2)
                  subtitles1).
Proof.
  induction subtitles1 as [|a l IH]; intros acc i.
  - cbn. now rewrite append_empty_r.
  - cbn [fold_left number_from]. unfold Legacy.srtStep at 2.
    cbn [fst snd]. rewrite IH, renderAll_cons, legacy_render_entry.
    flatten_append. reflexivity.
Qed.

Lemma legacy_untimed_index (subtitles2 : list Cue) (l : list Cue) :
  forall i i',
    renderAll (number_from i (Legacy.entry None subtitles2) l)
    = renderAll (number_from i' (Legacy.entry None subtitles2) l).
Proof.
  induction l as [|a l IH]; intros i i'; [reflexivity|].
  cbn [number_from]. rewrite !renderAll_cons, (IH (S i) (S i')).
  now rewrite !legacy_render_entry.
Qed.

Lemma legacy_combinedTXT_fold (subtitles2 subtitles1 : list Cue) :
  forall acc,
    fold_left (Legacy.txtStep subtitles2) subtitles1 acc
    = acc ++ renderAll
               (number_from 1 (Legacy.entry None subtitles2) subtitles1).
Proof.
  induction subtitles1 as [|a l IH]; intros acc.
  - cbn. now rewrite append_empty_r.
  - cbn [fold_left number_from]. unfold Legacy.txtStep at 2.
    rewrite IH, renderAll_cons, legacy_render_entry.
    rewrite (legacy_untimed_index subtitles2 l 2 1).
    flatten_append. reflexivity.
Qed.

Lemma legacy_get_set (key key' : string) (value : Cue) (m : Legacy.CueMap) :
  Legacy.get key (Legacy.set key' value m)
  = if String.eqb key' key then Some value else Legacy.get key m.
Proof.
  induction m as [|[k v] m IH]; cbn [Legacy.set Legacy.get].
  - reflexivity.
  - destruct (String.eqb_spec k key') as [->|Hk]; cbn [Legacy.get].
    + now destruct (String.eqb key' key).
    + rewrite IH. destruct (String.eqb_spec k key) as [->|Hk'];
        [|reflexivity].
      destruct (String.eqb_spec key' key) as [->|_]; [congruence|reflexivity].
Qed.

Lemma find_snoc {A : Type} (p : A -> bool) (l : list A) (x : A) :
  find p (l ++ [x])
  = match find p l with
    | Some y => Some y
    | None => if p x then Some x else None
    end.
Proof.
  induction l as [|y l IH]; cbn [app find]; [reflexivity|].
  now destruct (p y).
Qed.

Lemma legacy_get_fold (key : string) (l : list Cue) :
  forall m,
    Legacy.get key
      (fold_left (fun m subtitle => Legacy.set (begin subtitle) subtitle m)
         l m)
    = match find (fun sub => String.eqb (begin sub) key) (rev l) with
      | Some sub => Some sub
      | None => Legacy.get key m
      end.
Proof.
  induction l as [|x l IH]; intros m; cbn [fold_left rev find];
    [reflexivity|].
  rewrite IH, find_snoc, legacy_get_set.
  destruct (find _ (rev l)); [reflexivity|].
  now destruct (String.eqb (begin x) key).
Qed.

Lemma legacy_subtitle2For_spec (subtitles2 : list Cue) (subtitle1 : Cue) :
  Legacy.subtitle2For subtitles2 subtitle1
  = match find (fun sub => String.eqb (begin sub) (begin subtitle1))
            (rev subtitles2) with
    | Some sub => Some sub
    | None => find (Legacy.near (begin subtitle1)) subtitles2
    end.
Proof.
  unfold Legacy.subtitle2For, Legacy.subtitlesMap2.
  rewrite legacy_get_fold. cbn [Legacy.get].
  now destruct (find _ (rev subtitles2)).
Qed.

(** X13. In the first version of the combination, the cue of the second
    file printed with a cue of the first file is the last cue of the second
    file that has the very same begin string, if there is one, and
    otherwise the first cue of the second file that begins less than
    5000000 ticks away. *)
Theorem legacy_match_is_last_equal_else_first_near
    (subtitles2 : list Cue) (subtitle1 : Cue) :
  Legacy.subtitle2For subtitles2 subtitle1
  = match find (fun sub => String.eqb (begin sub) (begin subtitle1))
            (rev subtitles2) with
    | Some sub => Some sub
    | None => find (Legacy.near (begin subtitle1)) subtitles2
    end.
Proof. apply legacy_subtitle2For_spec. Qed.

Lemma legacy_near_ticks (a b : Cue) :
  isTicks (startTimeOf a) -> isTicks (startTimeOf b) ->
  Legacy.near (begin a) b = (Z.abs (startTicks a - startTicks b) <? 5000000).
Proof.
  unfold Legacy.near, isTicks, startTicks. intros Ha Hb.
  fold (startTimeOf a). fold (startTimeOf b).
  now rewrite Ha, Hb, sub_of_Z, abs_of_Z, ltb_of_Z, !ticksOf_of_Z.
Qed.

(** X14. The first version of the combination, on any two documents whose
    begin ticks are safe integers: the text written is one entry per cue of
    the first file, numbered from 1 in the order of the document (nothing is
    sorted), with the time range and the text of that cue; the entry has a
    second text exactly when some cue of the second file begins less than
    5000000 ticks away, and the second text is then the text of such a
    cue. *)
Theorem legacy_combination_entries
    (xmlData1 xmlData2 language1 language2 : string) :
  safeTicks (extractSubtitlesWithRegex xmlData1 language1) = true ->
  safeTicks (extractSubtitlesWithRegex xmlData2 language2) = true ->
  let subtitles1 := extractSubtitlesWithRegex xmlData1 language1 in
  let subtitles2 := extractSubtitlesWithRegex xmlData2 language2 in
  let tickRate1 := extractTickRate xmlData1 in
  let entries := Legacy.entries (Some tickRate1) subtitles1 subtitles2 in
  Legacy.combinedSRT tickRate1 subtitles1 subtitles2 = renderAll entries /\
  Legacy.combinedTXT subtitles1 subtitles2
  = renderAll (Legacy.entries None subtitles1 subtitles2) /\
  map index entries = seq 1 (List.length subtitles1) /\
  Forall2
    (fun a e =>
       timeRange e = Some (convertTimeToSRT (begin a) tickRate1,
                           convertTimeToSRT (end_ a) tickRate1) /\
       (texts e = [text a] /\
        Forall (fun b => 5000000 <= Z.abs (startTicks a - startTicks b))
          subtitles2
        \/
        exists b,
          In b subtitles2 /\ texts e = [text a; text b] /\
          Z.abs (startTicks a - startTicks b) < 5000000))
    subtitles1 entries.
Proof.
  intros _ _.
  cbv zeta. split.
  { unfold Legacy.combinedSRT, Legacy.entries.
    now rewrite legacy_combinedSRT_fold. }
  split.
  { unfold Legacy.combinedTXT, Legacy.entries.
    now rewrite legacy_combinedTXT_fold. }
  split.
  { unfold Legacy.entries. now rewrite number_from_index by reflexivity. }
  unfold Legacy.entries.
  pose proof (extracted_isTicks xmlData2 language2) as H2.
  pose proof (extracted_isTicks xmlData1 language1) as H1.
  set (subtitles2 := extractSubtitlesWithRegex xmlData2 language2) in *.
  generalize 1%nat.
  induction H1 as [|a l Ha Hl IH]; intros i; cbn [number_from];
    constructor; [|apply IH].
  cbn [Legacy.entry timeRange texts]. split; [reflexivity|].
  rewrite legacy_subtitle2For_spec.
  destruct (find (fun sub => String.eqb (begin sub) (begin a))
              (rev subtitles2)) as [c|] eqn:Eget.
  - apply find_some in Eget as [Hin Heq]. apply in_rev in Hin.
    apply String.eqb_eq in Heq.
    right. exists c. split; [exact Hin|]. split; [reflexivity|].
    unfold startTicks, startTimeOf. rewrite Heq. lia.
  - destruct (find (Legacy.near (begin a)) subtitles2) as [c|] eqn:Efind.
    + apply find_some in Efind as [Hin Hnear].
      right. exists c. split; [exact Hin|]. split; [reflexivity|].
      rewrite Forall_forall in H2.
      rewrite (legacy_near_ticks a c Ha (H2 c Hin)) in Hnear.
      now apply Z.ltb_lt.
    + left. split; [reflexivity|].
      rewrite Forall_forall in H2 |- *. intros b Hb.
      pose proof (find_none _ _ Efind b Hb) as Hfar. cbn beta in Hfar.
      rewrite (legacy_near_ticks a b Ha (H2 b Hb)) in Hfar.
      now apply Z.ltb_ge.
Qed.

(** X14, a witness: a Korean document with a cue at 10000000 ticks and a
    Chinese document with cues at 4000000 and 13000000 ticks. *)
Lemma legacy_combination_entries_witness :
  safeTicks (extractSubtitlesWithRegex Sample.oneSecondKr "kr") = true /\
  safeTicks (extractSubtitlesWithRegex Sample.tenMillionCh "ch") = true /\
  let subtitles1 := extractSubtitlesWithRegex Sample.oneSecondKr "kr" in
  let subtitles2 := extractSubtitlesWithRegex Sample.tenMillionCh "ch" in
  let tickRate1 := extractTickRate Sample.oneSecondKr in
  let entries := Legacy.entries (Some tickRate1) subtitles1 subtitles2 in
  Legacy.combinedSRT tickRate1 subtitles1 subtitles2 = renderAll entries /\
  Legacy.combinedTXT subtitles1 subtitles2
  = renderAll (Legacy.entries None subtitles1 subtitles2) /\
  map index entries = seq 1 (List.length subtitles1) /\
  Forall2
    (fun a e =>
       timeRange e = Some (convertTimeToSRT (begin a) tickRate1,
                           convertTimeToSRT (end_ a) tickRate1) /\
       (texts e = [text a] /\
        Forall (fun b => 5000000 <= Z.abs (startTicks a - startTicks b))
          subtitles2
        \/
        exists b,
          In b subtitles2 /\ texts e = [text a; text b] /\
          Z.abs (startTicks a - startTicks b) < 5000000))
    subtitles1 entries.
Proof.
  split; [vm_compute; reflexivity|].
  split; [vm_compute; reflexivity|].
  apply (legacy_combination_entries
           Sample.oneSecondKr Sample.tenMillionCh "kr" "ch");
    vm_compute; reflexivity.
Defined.

(** ** Time codes of whole seconds *)

Lemma Qred_inject_Z (z : Z) : Qred (inject_Z z) = inject_Z z.
Proof. apply Qcanon.Qred_identity. cbn. apply Z.gcd_1_r. Qed.

Lemma is_zero_of_pos (d : Z) : 0 < d -> is_zero (inject_Z d) = false.
Proof.
  intros Hd. unfold is_zero.
  change (Qcompare (inject_Z d) 0) with (Qcompare (inject_Z d) (inject_Z 0)).
  rewrite Qcompare_inject_Z.
  destruct (Z.compare_spec d 0); try reflexivity; lia.
Qed.

Lemma div_exact (k rate : Z) :
  0 < rate -> Num.div (of_Z (k * rate)) (of_Z rate) = of_Z k.
Proof.
  intros Hr. unfold Num.div, of_Z. rewrite (is_zero_of_pos rate Hr).
  f_equal. rewrite <- (Qred_inject_Z k). apply Qred_complete.
  destruct rate as [|p|p]; try lia.
  unfold Qeq, Qdiv, Qmult, Qinv, inject_Z. cbn [Qnum Qden].
  rewrite Pos2Z.inj_mul. ring.
Qed.

Lemma Qfloor_quotient (k d : Z) :
  0 < d -> Qfloor (inject_Z k / inject_Z d) = k / d.
Proof.
  intros Hd. destruct d as [|p|p]; try lia.
  unfold Qdiv, Qmult, Qinv, inject_Z, Qfloor. cbn [Qnum Qden].
  now rewrite Z.mul_1_r, Pos.mul_1_l.
Qed.

Lemma floor_div_of_Z (k d : Z) :
  0 < d -> floor (Num.div (of_Z k) (of_Z d)) = of_Z (k / d).
Proof.
  intros Hd. unfold Num.div, of_Z, floor. rewrite (is_zero_of_pos d Hd).
  f_equal. f_equal. rewrite (Qfloor_comp _ _ (Qred_correct _)).
  now apply Qfloor_quotient.
Qed.

Lemma rem_of_Z (k d : Z) :
  0 <= k -> 0 < d -> rem (of_Z k) (of_Z d) = of_Z (k mod d).
Proof.
  intros Hk Hd. unfold rem, of_Z. rewrite (is_zero_of_pos d Hd).
  f_equal. rewrite <- (Qred_inject_Z (k mod d)). apply Qred_complete.
  assert (Htrunc : trunc (inject_Z k / inject_Z d) = k / d).
  { unfold trunc, is_neg.
    assert (E : Qcompare (inject_Z k / inject_Z d) 0 <> Lt).
    { destruct d as [|p|p]; try lia.
      unfold Qcompare, Qdiv, Qmult, Qinv, inject_Z. cbn [Qnum Qden].
      rewrite !Z.mul_1_r. cbn [Z.mul].
      destruct (Z.compare_spec k 0); try discriminate; lia. }
    destruct (Qcompare (inject_Z k / inject_Z d) 0);
      try congruence; now apply Qfloor_quotient. }
  rewrite Htrunc, (Z.mod_eq k d) by lia.
  unfold Qeq, Qminus, Qplus, Qopp, Qmult, inject_Z. cbn [Qnum Qden].
  lia.
Qed.

Lemma floor_of_Z (z : Z) : floor (of_Z z) = of_Z z.
Proof. unfold floor, of_Z. now rewrite Qfloor_Z. Qed.

Lemma toString_of_Z (z : Z) : toString (of_Z z) = Str.of_Z z.
Proof. unfold toString, of_Z. now rewrite Qfloor_Z. Qed.

(** X15. For a time that is a whole number [k] of seconds at a positive
    tick rate, its tick count [k * rate] being a safe integer, the time code
    is the hours [k / 3600], the minutes [(k mod 3600) / 60] and the seconds
    [k mod 60], each padded to two digits, followed by [,000]. *)
Theorem whole_seconds_time_code (time : string) (k rate : Z) :
  0 <= k -> 0 < rate -> k * rate < 2 ^ 53 ->
  timeValue time = of_Z (k * rate) ->
  convertTimeToSRT time (of_Z rate)
  = Str.padStart 2 (Str.of_Z (k / 3600)) ++ ":"
    ++ Str.padStart 2 (Str.of_Z (k mod 3600 / 60)) ++ ":"
    ++ Str.padStart 2 (Str.of_Z (k mod 60)) ++ ",000".
Proof.
  intros Hk Hr _ Ht. unfold convertTimeToSRT, totalSeconds.
  rewrite Ht, (div_exact k rate Hr). unfold timeCode.
  rewrite (floor_div_of_Z k 3600), (rem_of_Z k 3600), (rem_of_Z k 60)
    by lia.
  rewrite (floor_div_of_Z (k mod 3600) 60) by lia.
  rewrite !floor_of_Z, sub_of_Z, Z.sub_diag, !toString_of_Z.
  reflexivity.
Qed.

(** X15, a witness: 3725 seconds at 10000000 ticks per second. *)
Lemma whole_seconds_time_code_witness :
  0 <= 3725 /\ 0 < 10000000 /\ 3725 * 10000000 < 2 ^ 53 /\
  timeValue "37250000000t" = of_Z (3725 * 10000000) /\
  convertTimeToSRT "37250000000t" (of_Z 10000000)
  = Str.padStart 2 (Str.of_Z (3725 / 3600)) ++ ":"
    ++ Str.padStart 2 (Str.of_Z (3725 mod 3600 / 60)) ++ ":"
    ++ Str.padStart 2 (Str.of_Z (3725 mod 60)) ++ ",000".
Proof.
  split; [discriminate|]. split; [reflexivity|].
  split; [reflexivity|].
  split; [vm_compute; reflexivity|].
  apply (whole_seconds_time_code "37250000000t" 3725 10000000);
    [discriminate | reflexivity | reflexivity | vm_compute; reflexivity].
Defined.

(** ** Combining with a file that has no cue *)

Lemma pairedEntries_alone (r : option number) (l : list Cue) :
  forall i j,
    number_from i (pairedEntry r) (pairedPass [] j l)
    = number_from i (singleEntry r) l.
Proof.
  induction l as [|a l IH]; intros i k; cbn [pairedPass number_from];
    [reflexivity|].
  rewrite findBest_empty. unfold advance.
  cbn [accepted noBest bestMatch]. now rewrite IH.
Qed.

Lemma timelineEntries_alone (language1 language2 : string)
    (tickRate1 tickRate2 : number) (subtitles1 : list Cue) :
  timelineEntries language1 language2 tickRate1 tickRate2 subtitles1 []
  = number_from 1 (singleEntry (Some tickRate1)) (sort byBegin subtitles1).
Proof.
  unfold timelineEntries, timelineOrder, mergedSubtitles.
  cbn [map]. rewrite app_nil_r.
  rewrite (sort_map (tagged language1 tickRate1) byBegin byStartTime
             (fun _ => True));
    [|reflexivity | apply Forall_forall; easy].
  generalize 1%nat. induction (sort byBegin subtitles1) as [|a l IH];
    intros i; cbn [map number_from]; [reflexivity|].
  now rewrite IH.
Qed.

Lemma untimed_single (tickRate : number) (l : list Cue) :
  forall i,
    map untimed (number_from i (singleEntry (Some tickRate)) l)
    = number_from i (singleEntry None) l.
Proof.
  induction l as [|a l IH]; intros i; cbn [number_from map];
    [reflexivity|].
  now rewrite IH.
Qed.

(** X16. When the second file yields no cue (an empty document, or a
    language it is not written in) and the cues of the first file come in
    ascending order of their begin ticks, a combination in either mode
    writes exactly what the single conversion of the first file writes, in
    SRT and in TXT. *)
Theorem combination_with_empty_second_file
    (xmlFile1 xmlFile2 outputFilePath language1 language2 mode : string)
    (xmlData1 xmlData2 : string) (fs : Files) :
  fs xmlFile1 = Some xmlData1 -> fs xmlFile2 = Some xmlData2 ->
  extractSubtitlesWithRegex xmlData2 language2 = [] ->
  Sorted (ascending startTicks)
    (extractSubtitlesWithRegex xmlData1 language1) ->
  written
    (createCombinedSRT xmlFile1 xmlFile2 outputFilePath
       language1 language2 mode fs) outputFilePath
  = written (convertToSRT xmlFile1 outputFilePath language1 fs)
      outputFilePath /\
  written
    (createCombinedTXT xmlFile1 xmlFile2 outputFilePath
       language1 language2 mode fs) outputFilePath
  = written (convertToTXT xmlFile1 outputFilePath language1 fs)
      outputFilePath.
Proof.
  intros H1 H2 Hempty Hs.
  assert (Hsort : sort byBegin (extractSubtitlesWithRegex xmlData1 language1)
                  = extractSubtitlesWithRegex xmlData1 language1).
  { apply (sort_ascending_unchanged byBegin startTicks
             (fun sub => isTicks (startTimeOf sub)) byBegin_ticks);
      [apply extracted_isTicks | exact Hs]. }
  unfold createCombinedSRT, createCombinedTXT,
    createCombinedSRTPaired, createCombinedSRTTimeline,
    createCombinedTXTPaired, createCombinedTXTTimeline,
    convertToSRT, convertToTXT, await, readFile.
  destruct (String.eqb mode "paired"); rewrite H1, H2, Hempty;
    rewrite ?Hsort; cbn [sort fold_right];
    unfold writeFile, resolve, written; rewrite String.eqb_refl;
    split; f_equal.
  - rewrite pairedSRT_renders. unfold pairedEntries.
    now rewrite pairedEntries_alone.
  - rewrite pairedTXT_renders. unfold pairedEntries.
    now rewrite pairedEntries_alone.
  - rewrite timelineSRT_renders, timelineEntries_alone. now rewrite Hsort.
  - rewrite (timelineTXT_renders _ _ (of_Z 0) (of_Z 0)),
      timelineEntries_alone, untimed_single.
    now rewrite Hsort.
Qed.

(** X16, a witness: a Chinese document combined with a Korean document
    read as Chinese, from which nothing is extracted. *)
Lemma combination_with_empty_second_file_witness :
  Sample.disk Sample.oneAndThreeSecondsCh Sample.oneSecondKr "a.xml"
  = Some Sample.oneAndThreeSecondsCh /\
  Sample.disk Sample.oneAndThreeSecondsCh Sample.oneSecondKr "b.xml"
  = Some Sample.oneSecondKr /\
  extractSubtitlesWithRegex Sample.oneSecondKr "ch" = [] /\
  Sorted (ascending startTicks)
    (extractSubtitlesWithRegex Sample.oneAndThreeSecondsCh "ch") /\
  written
    (createCombinedSRT "a.xml" "b.xml" "out.srt" "ch" "ch" "paired"
       (Sample.disk Sample.oneAndThreeSecondsCh Sample.oneSecondKr))
    "out.srt"
  = written
      (convertToSRT "a.xml" "out.srt" "ch"
         (Sample.disk Sample.oneAndThreeSecondsCh Sample.oneSecondKr))
      "out.srt" /\
  written
    (createCombinedTXT "a.xml" "b.xml" "out.srt" "ch" "ch" "paired"
       (Sample.disk Sample.oneAndThreeSecondsCh Sample.oneSecondKr))
    "out.srt"
  = written
      (convertToTXT "a.xml" "out.srt" "ch"
         (Sample.disk Sample.oneAndThreeSecondsCh Sample.oneSecondKr))
      "out.srt".
Proof.
  assert (H : Sorted (ascending startTicks)
                (extractSubtitlesWithRegex Sample.oneAndThreeSecondsCh "ch")).
  { let l := eval vm_compute in
      (extractSubtitlesWithRegex Sample.oneAndThreeSecondsCh "ch") in
    change (extractSubtitlesWithRegex Sample.oneAndThreeSecondsCh "ch")
      with l.
    repeat constructor. vm_compute. discriminate. }
  split; [reflexivity|]. split; [reflexivity|].
  split; [vm_compute; reflexivity|]. split; [exact H|].
  apply (combination_with_empty_second_file
           "a.xml" "b.xml" "out.srt" "ch" "ch" "paired"
           Sample.oneAndThreeSecondsCh Sample.oneSecondKr
           (Sample.disk Sample.oneAndThreeSecondsCh Sample.oneSecondKr));
    [reflexivity | reflexivity | vm_compute; reflexivity | exact H].
Defined.

(** ** The main function *)

Lemma eqb_append_prefix (r a b : string) :
  String.eqb (r ++ a) (r ++ b) = String.eqb a b.
Proof.
  induction r as [|c r IH]; [reflexivity|].
  cbn. now rewrite Ascii.eqb_refl.
Qed.

Lemma join_eqb (root a b : string) :
  String.eqb (join root a) (join root b) = String.eqb a b.
Proof.
  unfold join. rewrite eqb_append_prefix. cbn.
  reflexivity.
Qed.

Lemma join_outputDir (root name : string) :
  join (outputDir root) name = join root ("output/" ++ name).
Proof.
  unfold outputDir, join. rewrite !append_assoc. reflexivity.
Qed.

(** Comparisons of paths below the same directory, evaluated. *)
Ltac compare_paths :=
  repeat
    (rewrite ?join_eqb;
     repeat match goal with
       | |- context [String.eqb (String ?a ?s) (String ?b ?t)] =>
           let v := eval vm_compute in
             (String.eqb (String a s) (String b t)) in
           change (String.eqb (String a s) (String b t)) with v
       end;
     cbv beta iota).

(** X18. [main] runs its six operations without interference: the files
    it leaves are the initial files with, over them, what each operation
    that ran writes when it is run by itself on the initial files.  All six
    run when both episode files exist; only the two conversions of the
    Korean file when the Chinese file is missing; none when the Korean file
    is missing, even if the Chinese file exists.  The input files are never
    changed. *)
Theorem main_runs_operations_independently
    (root : string) (fs : Files) (p : string) :
  let krXmlPath := join root "ep1-kr.xml" in
  let chXmlPath := join root "ep1-ch.xml" in
  let output := join (outputDir root) in
  let kr :=
    [alone (fun o => convertToSRT krXmlPath o "kr") fs
       (output "ep1-kr.srt");
     alone (fun o => convertToTXT krXmlPath o "kr") fs
       (output "ep1-kr.txt")] in
  let ch :=
    [alone (fun o => convertToSRT chXmlPath o "ch") fs
       (output "ep1-ch.srt");
     alone (fun o => convertToTXT chXmlPath o "ch") fs
       (output "ep1-ch.txt")] in
  let combined :=
    [alone
       (fun o =>
          createCombinedSRT krXmlPath chXmlPath o "kr" "ch" "timeline")
       fs (output "ep1-combined.srt");
     alone
       (fun o =>
          createCombinedTXT krXmlPath chXmlPath o "kr" "ch" "timeline")
       fs (output "ep1-combined.txt")] in
  main root fs p
  = overlay
      (match fs krXmlPath, fs chXmlPath with
       | None, _ => []
       | Some _, None => kr
       | Some _, Some _ => kr ++ ch ++ combined
       end)%list
      fs p /\
  main root fs krXmlPath = fs krXmlPath /\
  main root fs chXmlPath = fs chXmlPath.
Proof.
  cbv zeta.
  unfold main, attempt, overlay, alone, written.
  unfold createCombinedSRT, createCombinedTXT.
  change (String.eqb "timeline" "paired") with false. cbv beta iota.
  unfold convertToSRT, convertToTXT, createCombinedSRTTimeline,
    createCombinedTXTTimeline, await, readFile, writeFile, resolve.
  rewrite !join_outputDir. cbn [append].
  destruct (fs (join root "ep1-kr.xml")) as [xmlData1|] eqn:H1;
    [destruct (fs (join root "ep1-ch.xml")) as [xmlData2|] eqn:H2|];
    cbn [fold_left fst snd app];
    repeat (compare_paths; rewrite ?H1, ?H2);
    auto.
Qed.

(** ** Unrecognised languages *)

Lemma timelineEntries_alone_second (language1 language2 : string)
    (tickRate1 tickRate2 : number) (subtitles2 : list Cue) :
  timelineEntries language1 language2 tickRate1 tickRate2 [] subtitles2
  = number_from 1 (singleEntry (Some tickRate2)) (sort byBegin subtitles2).
Proof.
  unfold timelineEntries, timelineOrder, mergedSubtitles.
  cbn [map app].
  rewrite (sort_map (tagged language2 tickRate2) byBegin byStartTime
             (fun _ => True));
    [|reflexivity | apply Forall_forall; easy].
  generalize 1%nat. induction (sort byBegin subtitles2) as [|a l IH];
    intros i; cbn [map number_from]; [reflexivity|].
  now rewrite IH.
Qed.

(** C10. Whatever the document, extraction with a language other than
    ['kr'] and ['ch'] returns no cue.  A conversion with such a language
    resolves and writes an empty text.  A combination resolves as well, and
    the file read with that language contributes nothing: when it is the
    first file the paired mode writes an empty text and the timeline mode
    the cues of the second file, sorted; when it is the second file both
    modes write the cues of the first file, sorted, each alone.  The text
    is empty when neither language is recognised. *)
Theorem unknown_language_extracts_nothing (xmlContent language : string) :
  language <> "kr" -> language <> "ch" ->
  extractSubtitlesWithRegex xmlContent language = [] /\
  (forall (fs : Files) (xmlFilePath outputFilePath : string),
      fs xmlFilePath = Some xmlContent ->
      written (convertToSRT xmlFilePath outputFilePath language fs)
        outputFilePath = Some "" /\
      written (convertToTXT xmlFilePath outputFilePath language fs)
        outputFilePath = Some "") /\
  (forall (fs : Files) (xmlFile1 xmlFile2 outputFilePath : string)
          (xmlData2 language2 mode : string),
      fs xmlFile1 = Some xmlContent -> fs xmlFile2 = Some xmlData2 ->
      written
        (createCombinedSRT xmlFile1 xmlFile2 outputFilePath
           language language2 mode fs) outputFilePath
      = Some
          (if String.eqb mode "paired" then ""
           else
             renderAll
               (number_from 1
                  (singleEntry (Some (extractTickRate xmlData2)))
                  (sortedCues xmlData2 language2))) /\
      written
        (createCombinedTXT xmlFile1 xmlFile2 outputFilePath
           language language2 mode fs) outputFilePath
      = Some
          (if String.eqb mode "paired" then ""
           else
             renderAll
               (number_from 1 (singleEntry None)
                  (sortedCues xmlData2 language2)))) /\
  (forall (fs : Files) (xmlFile1 xmlFile2 outputFilePath : string)
          (xmlData1 language1 mode : string),
      fs xmlFile1 = Some xmlData1 -> fs xmlFile2 = Some xmlContent ->
      written
        (createCombinedSRT xmlFile1 xmlFile2 outputFilePath
           language1 language mode fs) outputFilePath
      = Some
          (renderAll
             (number_from 1
                (singleEntry (Some (extractTickRate xmlData1)))
                (sortedCues xmlData1 language1))) /\
      written
        (createCombinedTXT xmlFile1 xmlFile2 outputFilePath
           language1 language mode fs) outputFilePath
      = Some
          (renderAll
             (number_from 1 (singleEntry None)
                (sortedCues xmlData1 language1)))) /\
  (forall (fs : Files) (xmlFile1 xmlFile2 outputFilePath : string)
          (xmlData2 language2 mode : string),
      language2 <> "kr" -> language2 <> "ch" ->
      fs xmlFile1 = Some xmlContent -> fs xmlFile2 = Some xmlData2 ->
      written
        (createCombinedSRT xmlFile1 xmlFile2 outputFilePath
           language language2 mode fs) outputFilePath = Some "" /\
      written
        (createCombinedTXT xmlFile1 xmlFile2 outputFilePath
           language language2 mode fs) outputFilePath = Some "").
Proof.
  intros Hkr Hch.
  pose proof (extract_unknown xmlContent language Hkr Hch) as E.
  split; [exact E|]. split; [|split; [|split]].
  - intros fs path out Hfs.
    unfold convertToSRT, convertToTXT, await, readFile. rewrite Hfs, E.
    split; apply written_writeFile.
  - intros fs f1 f2 out d2 l2 mode H1 H2.
    unfold createCombinedSRT, createCombinedTXT,
      createCombinedSRTPaired, createCombinedSRTTimeline,
      createCombinedTXTPaired, createCombinedTXTTimeline, await, readFile.
    destruct (String.eqb mode "paired"); rewrite H1, H2, E;
      rewrite !written_writeFile; split; f_equal;
      try reflexivity.
    + now rewrite timelineSRT_renders, timelineEntries_alone_second.
    + now rewrite (timelineTXT_renders _ _ (of_Z 0) (of_Z 0)),
        timelineEntries_alone_second, untimed_single.
  - intros fs f1 f2 out d1 l1 mode H1 H2.
    unfold createCombinedSRT, createCombinedTXT,
      createCombinedSRTPaired, createCombinedSRTTimeline,
      createCombinedTXTPaired, createCombinedTXTTimeline, await, readFile.
    destruct (String.eqb mode "paired"); rewrite H1, H2, E;
      rewrite !written_writeFile; cbn [sort fold_right]; split; f_equal.
    + rewrite pairedSRT_renders. unfold pairedEntries.
      now rewrite pairedEntries_alone.
    + rewrite pairedTXT_renders. unfold pairedEntries.
      now rewrite pairedEntries_alone.
    + now rewrite timelineSRT_renders, timelineEntries_alone.
    + now rewrite (timelineTXT_renders _ _ (of_Z 0) (of_Z 0)),
        timelineEntries_alone, untimed_single.
  - intros fs f1 f2 out d2 l2 mode Hkr2 Hch2 H1 H2.
    pose proof (extract_unknown d2 l2 Hkr2 Hch2) as E2.
    unfold createCombinedSRT, createCombinedTXT,
      createCombinedSRTPaired, createCombinedSRTTimeline,
      createCombinedTXTPaired, createCombinedTXTTimeline, await, readFile.
    destruct (String.eqb mode "paired"); rewrite H1, H2, E, E2;
      split; apply written_writeFile.
Qed.

(** C10, a witness: the language ['jp'] on a Korean document, alone, then
    combined with a Chinese document read as Chinese, and with the same
    document read as ['jp']. *)
Lemma unknown_language_extracts_nothing_witness :
  "jp" <> "kr" /\ "jp" <> "ch" /\
  extractSubtitlesWithRegex Sample.oneSecondKr "jp" = [] /\
  written
    (convertToSRT "a.xml" "out.srt" "jp"
       (Sample.disk Sample.oneSecondKr Sample.oneSecondCh))
    "out.srt" = Some "" /\
  written
    (createCombinedSRT "a.xml" "b.xml" "out.srt" "jp" "ch" "timeline"
       (Sample.disk Sample.oneSecondKr Sample.oneSecondCh))
    "out.srt"
  = Some
      (renderAll
         (number_from 1
            (singleEntry (Some (extractTickRate Sample.oneSecondCh)))
            (sortedCues Sample.oneSecondCh "ch"))) /\
  written
    (createCombinedSRT "a.xml" "b.xml" "out.srt" "jp" "jp" "paired"
       (Sample.disk Sample.oneSecondKr Sample.oneSecondCh))
    "out.srt" = Some "".
Proof.
  split; [discriminate|]. split; [discriminate|].
  destruct (unknown_language_extracts_nothing Sample.oneSecondKr "jp")
    as [Hextract [Hconvert [Hfirst [_ Hboth]]]]; try discriminate.
  split; [exact Hextract|]. split; [|split].
  - apply Hconvert. reflexivity.
  - apply (Hfirst _ "a.xml" "b.xml" "out.srt" Sample.oneSecondCh "ch"
             "timeline"); reflexivity.
  - apply (Hboth _ "a.xml" "b.xml" "out.srt" Sample.oneSecondCh "jp");
      try discriminate; reflexivity.
Defined.

(** C10, the counterexample: a combination invoked with one unrecognised
    language does not produce an empty output.  With ['jp'] for the first
    file the timeline holds the cue of the second file; with ['jp'] for the
    second file both modes hold the cue of the first file. *)
Lemma unknown_language_combination_not_empty :
  let fs := Sample.disk Sample.oneSecondKr Sample.oneSecondCh in
  let b1 := Sample.lines ["1"; "00:00:01,000 --> 00:00:02,000"; "b1"; ""] in
  let a1 := Sample.lines ["1"; "00:00:01,000 --> 00:00:02,000"; "a1"; ""] in
  ("jp" <> "kr" /\ "jp" <> "ch") /\
  written
    (createCombinedSRT "a.xml" "b.xml" "out.srt" "jp" "ch" "timeline" fs)
    "out.srt" = Some b1 /\
  written
    (createCombinedSRT "a.xml" "b.xml" "out.srt" "kr" "jp" "timeline" fs)
    "out.srt" = Some a1 /\
  written
    (createCombinedSRT "a.xml" "b.xml" "out.srt" "kr" "jp" "paired" fs)
    "out.srt" = Some a1 /\
  written
    (createCombinedTXT "a.xml" "b.xml" "out.srt" "kr" "jp" "paired" fs)
    "out.srt" = Some (Sample.lines ["a1"; ""]) /\
  b1 <> "" /\ a1 <> "".
Proof.
  cbv zeta. split; [split; discriminate|].
  repeat split; try (vm_compute; reflexivity); discriminate.
Qed.
